(** * AsyncPool: a bounded asyncio worker pool (src/app/AsyncPool.py)

    The pool object, the asyncio queue it owns, the futures it hands out and
    the logger it talks to are embedded as one explicit state.  Every method
    is cut at its [await] points into atomic segments, written in a small
    state-and-exception monad, and the cooperative scheduler is a labelled
    transition function [exec] that runs one segment of one coroutine.

    The callers of the pool are its environment: they call [start], [push]
    and [join] in any order and at any time, with one [join] in progress at
    a time; they read the clock and supply the outcome of every call of
    [worker_co].  Under [exec] they only await the futures [push] hands them
    and leave the worker tasks alone: nothing outside the pool cancels a
    worker or resolves or cancels a future.  [exec_env] adds what such a
    caller can do besides: cancel a future it holds, and have an exception
    delivered to a worker that waits at the queue.  What is said about the
    flag and about result handles is said of [exec_env].

    The module [Download] after the pool embeds the deciding parts of
    src/app/Download.py in the same way. *)

From stdpp Require Import base option list list_numbers strings gmap.
From Stdlib Require Import ZArith Lia ZifyBool.

Local Open Scope Z_scope.

(** ** Python values the pool handles *)

(** Exception classes that occur in the pool or may come out of the
    caller-supplied [worker_co]. *)
Inductive exn :=
| KeyboardInterrupt
| MemoryError
| SystemExit
| TimeoutError          (* built-in, raised by [push] at line 134 *)
| AsyncioTimeoutError   (* [asyncio.wait_for] ran out of [max_task_time] *)
| CancelledError
| InvalidStateError     (* a Future resolved a second time *)
| ValueError            (* [Queue.task_done] called too many times *)
| TypeError
| ZeroDivisionError
| AssertionError
| PoolError             (* [Exception("Exception occurred in ... pool")], line 183 *)
| UserError (code : Z). (* any other exception of [worker_co] *)

#[global] Instance exn_eq_dec : EqDecision exn.
Proof. solve_decision. Defined.

(** The tuple of line 76: [(KeyboardInterrupt, MemoryError, SystemExit)]. *)
Definition unrecoverable (e : exn) : bool :=
  match e with
  | KeyboardInterrupt | MemoryError | SystemExit => true
  | _ => false
  end.

(** [datetime] values are microseconds since the epoch; the difference of two
    of them is a [timedelta], again in microseconds. *)
Definition datetime := Z.
Definition timedelta := Z.

(** What a caller can pass as [job_accept_duration]: the annotated [int]
    (a number of seconds), or a [datetime.timedelta]. *)
Inductive duration :=
| PyInt (seconds : Z)
| PyTimedelta (us : timedelta).

(** [(now - first) > w] of line 133.  [timedelta.__gt__] answers only for
    another [timedelta]; against an [int] both operands return
    [NotImplemented] and Python raises [TypeError]. *)
Definition timedelta_gt (d : timedelta) (w : duration) : exn + bool :=
  match w with
  | PyTimedelta us => inr (us <? d)
  | PyInt _ => inl TypeError
  end.

(** The span of time a configured window denotes, in microseconds. *)
Definition duration_us (w : duration) : Z :=
  match w with
  | PyInt n => 1000000 * n
  | PyTimedelta us => us
  end.

(** [args]/[kwargs] and the value returned by [worker_co] are opaque. *)
Definition payload := Z.
Definition value := Z.

(** A Future object is addressed by its index in the heap of futures. *)
Abbreviation future_id := nat.

Inductive future_state :=
| Pending
| Result (v : value)
| Failed (e : exn)
| Cancelled.            (* [Future.cancel()] went through *)

#[global] Instance future_state_eq_dec : EqDecision future_state.
Proof. solve_decision. Defined.

(** What sits in the queue: the tuple [(future, args, kwargs)] built by
    [push], or an instance of [Terminator]. *)
Inductive item :=
| Work (future : option future_id) (args : payload)
| Terminator.

#[global] Instance item_eq_dec : EqDecision item.
Proof. solve_decision. Defined.

(** ** asyncio.Queue

    The part of the library class the pool relies on, as CPython has it:
    the bound, the FIFO of items and the count behind [task_done]. *)

Record Queue := mkQueue {
  maxsize : Z;
  items : list item;
  unfinished_tasks : Z
}.

(** [Queue.full]: a queue with [maxsize <= 0] is unbounded. *)
Definition full (q : Queue) : bool :=
  if maxsize q <=? 0 then false else maxsize q <=? Z.of_nat (length (items q)).

Definition put_nowait (x : item) (q : Queue) : Queue :=
  mkQueue (maxsize q) (items q ++ [x]) (unfinished_tasks q + 1).

Definition get_nowait (q : Queue) : option (item * Queue) :=
  match items q with
  | [] => None
  | x :: rest => Some (x, mkQueue (maxsize q) rest (unfinished_tasks q))
  end.

Definition task_done (q : Queue) : exn + Queue :=
  if unfinished_tasks q <=? 0 then inl ValueError
  else inr (mkQueue (maxsize q) (items q) (unfinished_tasks q - 1)).

(** ** Tasks *)

(** Where a worker task stands in [_worker_loop]. *)
Inductive worker :=
| Waiting            (* at [await self._queue.get()], line 62 *)
| Running (future : option future_id) (args : payload)
                     (* at [await asyncio.wait_for(...)], line 72 *)
| Retired            (* left the loop through [break] *)
| Crashed (e : exn). (* an exception left the loop *)

#[global] Instance worker_eq_dec : EqDecision worker.
Proof. solve_decision. Defined.

(** How the awaited [wait_for(worker_co(...), max_task_time)] comes back. *)
Inductive outcome :=
| Returned (v : value)
| Raised (e : exn).

(** Where a caller stands inside [join]. *)
Inductive join_pc :=
| JoinPutting (k : nat)   (* in the loop of line 170, [k] markers still to put *)
| JoinGathering.          (* at [await asyncio.gather(...)], line 174 *)

(** Calls received by the logger. *)
Inductive log_record :=
| InfoJoining
| InfoCompleted
| InfoPushed (total : Z) (expected : option Z)
| DebugNewJob (args : payload)
| ExceptionWorkerCallFailed
| ExceptionJoining.

(** ** Configuration and state *)

Record config := mkConfig {
  num_workers : Z;
  load_factor : Z;
  job_accept_duration : option duration;
  max_task_time : option Z;
  return_futures : bool;
  raise_on_join : bool;
  log_every_n : option Z;
  expected_total : option Z
}.

Record state := mkState {
  queue : Queue;                       (* self._queue *)
  workers : option (list worker);      (* self._workers, task by task *)
  exceptions : bool;                   (* self._exceptions *)
  first_push_dt : option datetime;     (* self._first_push_dt *)
  total_queued : Z;                    (* self._total_queued *)
  active_workers : Z;                  (* self._active_workers *)
  futures : list future_state;         (* the Future objects created so far *)
  logger : list log_record;            (* what self._logger was told *)
  putters : list item;                 (* push calls suspended in [queue.put] *)
  joiner : option join_pc              (* the join call in progress, if any *)
}.

Definition set_queue (q : Queue) (s : state) : state :=
  mkState q (workers s) (exceptions s) (first_push_dt s) (total_queued s)
          (active_workers s) (futures s) (logger s) (putters s) (joiner s).
Definition set_workers (w : option (list worker)) (s : state) : state :=
  mkState (queue s) w (exceptions s) (first_push_dt s) (total_queued s)
          (active_workers s) (futures s) (logger s) (putters s) (joiner s).
Definition set_exceptions (b : bool) (s : state) : state :=
  mkState (queue s) (workers s) b (first_push_dt s) (total_queued s)
          (active_workers s) (futures s) (logger s) (putters s) (joiner s).
Definition set_first_push_dt (t : option datetime) (s : state) : state :=
  mkState (queue s) (workers s) (exceptions s) t (total_queued s)
          (active_workers s) (futures s) (logger s) (putters s) (joiner s).
Definition set_total_queued (n : Z) (s : state) : state :=
  mkState (queue s) (workers s) (exceptions s) (first_push_dt s) n
          (active_workers s) (futures s) (logger s) (putters s) (joiner s).
Definition set_active_workers (n : Z) (s : state) : state :=
  mkState (queue s) (workers s) (exceptions s) (first_push_dt s) (total_queued s)
          n (futures s) (logger s) (putters s) (joiner s).
Definition set_futures (h : list future_state) (s : state) : state :=
  mkState (queue s) (workers s) (exceptions s) (first_push_dt s) (total_queued s)
          (active_workers s) h (logger s) (putters s) (joiner s).
Definition set_logger (l : list log_record) (s : state) : state :=
  mkState (queue s) (workers s) (exceptions s) (first_push_dt s) (total_queued s)
          (active_workers s) (futures s) l (putters s) (joiner s).
Definition set_putters (p : list item) (s : state) : state :=
  mkState (queue s) (workers s) (exceptions s) (first_push_dt s) (total_queued s)
          (active_workers s) (futures s) (logger s) p (joiner s).
Definition set_joiner (j : option join_pc) (s : state) : state :=
  mkState (queue s) (workers s) (exceptions s) (first_push_dt s) (total_queued s)
          (active_workers s) (futures s) (logger s) (putters s) j.

(** [AsyncPool.__init__], lines 37-54. *)
Definition init (c : config) : state :=
  mkState (mkQueue (num_workers c * load_factor c) [] 0)
          None false None 0 0 [] [] [] None.

(** ** A state-and-exception monad for method bodies *)

Inductive res (A : Type) :=
| Ok (a : A) (s : state)
| Raise (e : exn) (s : state).
Arguments Ok {A} a s.
Arguments Raise {A} e s.

Definition Py (A : Type) : Type := state → res A.

#[global] Instance Py_ret : MRet Py := λ A a s, Ok a s.
#[global] Instance Py_bind : MBind Py := λ A B f m s,
  match m s with
  | Ok a s' => f a s'
  | Raise e s' => Raise e s'
  end.

Definition raise {A} (e : exn) : Py A := λ s, Raise e s.
Definition gets {A} (f : state → A) : Py A := λ s, Ok (f s) s.
Definition modify (f : state → state) : Py unit := λ s, Ok tt (f s).
Definition lift {A} (x : exn + A) : Py A :=
  match x with inl e => raise e | inr a => mret a end.

(** [try: body / except BaseException as e: handler e]. *)
Definition try_except {A} (body : Py A) (handler : exn → Py A) : Py A := λ s,
  match body s with
  | Ok a s' => Ok a s'
  | Raise e s' => handler e s'
  end.

(** [try: body / finally: fin].  An exception of [fin] replaces whatever
    [body] was leaving with. *)
Definition try_finally {A} (body : Py A) (fin : Py unit) : Py A := λ s,
  match body s with
  | Ok a s' =>
      match fin s' with Ok _ s'' => Ok a s'' | Raise e s'' => Raise e s'' end
  | Raise e s' =>
      match fin s' with Ok _ s'' => Raise e s'' | Raise e' s'' => Raise e' s'' end
  end.

(** ** Futures and logger *)

(** [asyncio.futures.Future(loop=...)]: a fresh pending object. *)
Definition new_future : Py future_id := λ s,
  Ok (length (futures s)) (set_futures (futures s ++ [Pending]) s).

(** [Future.set_result] / [Future.set_exception]: only a pending future can
    be resolved, anything else raises [InvalidStateError]. *)
Definition resolve (f : future_id) (r : future_state) : Py unit := λ s,
  match futures s !! f with
  | Some Pending => Ok tt (set_futures (<[f := r]> (futures s)) s)
  | _ => Raise InvalidStateError s
  end.
Definition set_result (f : future_id) (v : value) : Py unit := resolve f (Result v).
Definition set_exception (f : future_id) (e : exn) : Py unit := resolve f (Failed e).

Definition log (r : log_record) : Py unit :=
  modify (λ s, set_logger (logger s ++ [r]) s).

(** ** The methods of AsyncPool, cut at their await points *)

Section Pool.
Variable c : config.

(** *** [_worker_loop], lines 56-92 *)

(** The [finally] block, lines 89-92. *)
Definition release (got_obj : bool) : Py unit :=
  modify (λ s, set_active_workers (active_workers s - 1) s) ;;
  if got_obj then
    q ← gets queue;
    q' ← lift (task_done q);
    modify (set_queue q')
  else mret tt.

(** One pass from the moment [get] hands over [x] (line 62) up to the next
    suspension: [break] on a marker, which still runs the [finally] block, or
    the await of line 72. *)
Definition worker_loop_dequeued (x : item) : Py worker :=
  match x with
  | Terminator => try_finally (mret Retired) (release true)
  | Work future args =>
      modify (λ s, set_active_workers (active_workers s + 1) s) ;;
      mret (Running future args)
  end.

(** The rest of the pass, from the moment the await of line 72 comes back
    with [o], through the handlers and the [finally] block, to the top of the
    loop. *)
Definition worker_loop_resumed (future : option future_id) (o : outcome) : Py worker :=
  try_finally
    (try_except
       (result ← match o with Returned v => mret v | Raised e => raise e end;
        match future with
        | Some f => set_result f result
        | None => mret tt
        end)
       (λ e,
          if unrecoverable e then
            match future with
            | Some f => set_exception f e
            | None => mret tt
            end ;;
            modify (set_exceptions true) ;;
            raise e
          else
            modify (set_exceptions true) ;;
            match future with
            | Some f => set_exception f e
            | None => log ExceptionWorkerCallFailed
            end))
    (release true) ;;
  mret Waiting.

(** *** [push], lines 130-145 *)

(** Lines 130-136: the timestamp, the window check, the future. *)
Definition push_before_put (t_first t_check : datetime) : Py (option future_id) :=
  first ← gets first_push_dt;
  match first with
  | None => modify (set_first_push_dt (Some t_first))
  | Some _ => mret tt
  end ;;
  match job_accept_duration c with
  | None => mret tt
  | Some w =>
      first ← gets first_push_dt;
      expired ← lift (timedelta_gt (t_check - default 0 first) w);
      if (expired : bool) then raise TimeoutError else mret tt
  end ;;
  if return_futures c then f ← new_future; mret (Some f) else mret None.

(** Lines 138-145, after the put went through. *)
Definition push_after_put (future : option future_id) (args : payload)
  : Py (option future_id) :=
  modify (λ s, set_total_queued (total_queued s + 1) s) ;;
  match log_every_n c with
  | None => mret tt
  | Some n =>
      if n =? 0 then raise ZeroDivisionError
      else
        total ← gets total_queued;
        if total `mod` n =? 0 then log (InfoPushed total (expected_total c))
        else mret tt
  end ;;
  log (DebugNewJob args) ;;
  mret future.

(** *** [start], lines 149-159 *)

Definition start : Py unit :=
  ws ← gets workers;
  match ws with
  | None => mret tt
  | Some _ => raise AssertionError
  end ;;
  modify (set_exceptions false) ;;
  modify (set_workers (Some (replicate (Z.to_nat (num_workers c)) Waiting))).

(** *** [join], lines 163-183 *)

(** Truth value of [self._workers]: [None] and the empty list are false. *)
Definition truthy (ws : option (list worker)) : bool :=
  match ws with
  | Some (_ :: _) => true
  | _ => false
  end.

(** Lines 163-166; [false] stands for the early [return]. *)
Definition join_before_put : Py bool :=
  ws ← gets workers;
  if truthy ws then log InfoJoining ;; mret true else mret false.

(** Lines 173-183, once [gather] has returned or raised. *)
Definition join_after_gather (g : exn + unit) : Py unit :=
  try_finally
    (try_except
       (lift g ;; modify (set_workers None))
       (λ e, log ExceptionJoining ;; raise e))
    (log InfoCompleted) ;;
  exc ← gets exceptions;
  if exc && raise_on_join c then raise PoolError else mret tt.

(** [has_open_workers] and [get_available_workers], lines 102-112. *)
Definition has_open_workers (s : state) : bool :=
  active_workers s <? num_workers c.
Definition get_available_workers (s : state) : Z :=
  num_workers c - active_workers s.

(** ** The event loop *)

(** One atomic step of one coroutine.  Clock readings, payloads and the
    outcomes of [worker_co] come with the label. *)
Inductive label :=
| CallStart
| CallPush (t_first t_check : datetime) (args : payload)
| ResumePush (i : nat)          (* the [i]-th suspended put goes through *)
| CallJoin
| JoinPut                       (* one turn of the loop of line 170 *)
| GatherDone                    (* [gather] returns: every worker task is done *)
| GatherRaise (i : nat)         (* [gather] raises the exception of worker [i] *)
| WorkerGet (i : nat)           (* worker [i] dequeues the head of the queue *)
| WorkerResume (i : nat) (o : outcome).

(** What the step hands back to whoever called. *)
Inductive obs :=
| Tau
| StartReturned
| StartRaised (e : exn)
| PushReturned (future : option future_id)
| PushRaised (e : exn)
| PushSuspended
| JoinReturned
| JoinRaised (e : exn)
| WorkerRaised (i : nat) (e : exn).

#[global] Instance obs_eq_dec : EqDecision obs.
Proof. solve_decision. Defined.

Definition set_worker (i : nat) (w : worker) (s : state) : state :=
  set_workers (fmap (M := option) (<[i := w]>) (workers s)) s.

Definition worker_at (i : nat) (s : state) : option worker :=
  ws ← workers s; ws !! i.

(** The put of line 137 going through, then lines 138-145. *)
Definition push_finish (future : option future_id) (args : payload) (s : state)
  : state * obs :=
  match push_after_put future args
          (set_queue (put_nowait (Work future args) (queue s)) s) with
  | Ok r s' => (s', PushReturned r)
  | Raise e s' => (s', PushRaised e)
  end.

Definition after_put (k : nat) : join_pc :=
  match k with
  | O => JoinGathering
  | S _ => JoinPutting k
  end.

Definition join_finish (g : exn + unit) (s : state) : state * obs :=
  match join_after_gather g s with
  | Ok _ s' => (set_joiner None s', JoinReturned)
  | Raise e s' => (set_joiner None s', JoinRaised e)
  end.

Definition worker_step (i : nat) (m : Py worker) (s : state) : state * obs :=
  match m s with
  | Ok w s' => (set_worker i w s', Tau)
  | Raise e s' => (set_worker i (Crashed e) s', WorkerRaised i e)
  end.

Definition all_retired (ws : list worker) : bool :=
  forallb (λ w, bool_decide (w = Retired)) ws.

(** [None] when the step is not enabled: the coroutine is not at that point,
    or it stays suspended (full queue for a put, empty queue for a get,
    unfinished workers for [gather]).  One join is in progress at a time. *)
Definition exec (l : label) (s : state) : option (state * obs) :=
  match l with
  | CallStart =>
      match start s with
      | Ok _ s' => Some (s', StartReturned)
      | Raise e s' => Some (s', StartRaised e)
      end
  | CallPush t_first t_check args =>
      match push_before_put t_first t_check s with
      | Raise e s' => Some (s', PushRaised e)
      | Ok future s' =>
          if full (queue s') then
            Some (set_putters (putters s' ++ [Work future args]) s', PushSuspended)
          else Some (push_finish future args s')
      end
  | ResumePush i =>
      match putters s !! i with
      | Some (Work future args) =>
          if full (queue s) then None
          else Some (push_finish future args (set_putters (delete i (putters s)) s))
      | _ => None
      end
  | CallJoin =>
      match joiner s with
      | Some _ => None
      | None =>
          match join_before_put s with
          | Ok true s' =>
              Some (set_joiner (Some (after_put (Z.to_nat (num_workers c)))) s', Tau)
          | Ok false s' => Some (s', JoinReturned)
          | Raise e s' => Some (s', JoinRaised e)
          end
      end
  | JoinPut =>
      match joiner s with
      | Some (JoinPutting (S k)) =>
          if full (queue s) then None
          else Some (set_joiner (Some (after_put k))
                       (set_queue (put_nowait Terminator (queue s)) s), Tau)
      | _ => None
      end
  | GatherDone =>
      match joiner s, workers s with
      | Some JoinGathering, Some ws =>
          if all_retired ws then Some (join_finish (inr tt) s) else None
      | _, _ => None
      end
  | GatherRaise i =>
      match joiner s, worker_at i s with
      | Some JoinGathering, Some (Crashed e) => Some (join_finish (inl e) s)
      | _, _ => None
      end
  | WorkerGet i =>
      match worker_at i s, get_nowait (queue s) with
      | Some Waiting, Some (x, q) =>
          Some (worker_step i (worker_loop_dequeued x) (set_queue q s))
      | _, _ => None
      end
  | WorkerResume i o =>
      match worker_at i s with
      | Some (Running future _) => Some (worker_step i (worker_loop_resumed future o) s)
      | _ => None
      end
  end.

(** A schedule run from [s]: the final state and what each step handed back. *)
Fixpoint run (ls : list label) (s : state) : option (state * list obs) :=
  match ls with
  | [] => Some (s, [])
  | l :: ls' =>
      match exec l s with
      | None => None
      | Some (s1, o) =>
          match run ls' s1 with
          | None => None
          | Some (s2, os) => Some (s2, o :: os)
          end
      end
  end.

(** States the pool can be in: those some schedule reaches from [init]. *)
Definition reachable (s : state) : Prop :=
  ∃ ls os, run ls (init c) = Some (s, os).

End Pool.

(** ** Measures and invariants of pool states *)

Definition workers_list (s : state) : list worker := default [] (workers s).

Definition running_w (w : worker) : nat :=
  match w with Running _ _ => 1 | _ => 0 end.
Definition waiting_w (w : worker) : nat :=
  match w with Waiting => 1 | _ => 0 end.
Definition retired_w (w : worker) : nat :=
  match w with Retired => 1 | _ => 0 end.
Definition crashed_w (w : worker) : nat :=
  match w with Crashed _ => 1 | _ => 0 end.
Definition marker_w (x : item) : nat :=
  match x with Terminator => 1 | Work _ _ => 0 end.

(** Workers between lines 68 and 90, retired workers, crashed workers and
    markers waiting in the queue. *)
Definition n_running (s : state) : nat := sum_list_with running_w (workers_list s).
Definition n_retired (s : state) : nat := sum_list_with retired_w (workers_list s).
Definition n_crashed (s : state) : nat := sum_list_with crashed_w (workers_list s).
Definition n_markers (s : state) : nat := sum_list_with marker_w (items (queue s)).

(** Places that hold a reference to future [f] and will resolve it: a queued
    item, a suspended put, a worker running the item. *)
Definition item_holds (f : future_id) (x : item) : nat :=
  match x with
  | Work (Some g) _ => if decide (g = f) then 1 else 0
  | _ => 0
  end.
Definition worker_holds (f : future_id) (w : worker) : nat :=
  match w with
  | Running (Some g) _ => if decide (g = f) then 1 else 0
  | _ => 0
  end.
Definition holders (f : future_id) (s : state) : nat :=
  (sum_list_with (item_holds f) (items (queue s))
   + sum_list_with (item_holds f) (putters s)
   + sum_list_with (worker_holds f) (workers_list s))%nat.

Definition resolved (r : future_state) : bool :=
  match r with Pending => false | _ => true end.


Section Invariants.
Variable c : config.

(** [task_done] bookkeeping: one unfinished task per queued item and per
    worker in the middle of a pass. *)
Definition inv_tasks (s : state) : Prop :=
  unfinished_tasks (queue s) = Z.of_nat (length (items (queue s)) + n_running s).

(** The queue keeps the capacity it was created with and respects it. *)
Definition inv_capacity (s : state) : Prop :=
  maxsize (queue s) = num_workers c * load_factor c ∧
  (0 < maxsize (queue s) → Z.of_nat (length (items (queue s))) ≤ maxsize (queue s)).

(** [start] spawns [num_workers] tasks. *)
Definition inv_width (s : state) : Prop :=
  ∀ ws, workers s = Some ws → length ws = Z.to_nat (num_workers c).

(** The counter never exceeds the number of workers in the middle of a pass. *)
Definition inv_active (s : state) : Prop :=
  active_workers s ≤ Z.of_nat (n_running s).

(** Every future is held at most once, and a held future is pending. *)
Definition inv_futures (s : state) : Prop :=
  ∀ f, (holders f s ≤ 1)%nat ∧
       ((1 ≤ holders f s)%nat → futures s !! f = Some Pending).

Definition no_crash (s : state) : Prop := n_crashed s = 0%nat.

(** Marker accounting: the markers put so far by the join in progress, all
    [num_workers] of them once it gathers, are those still queued plus one
    per retired worker; without a join in progress there is no marker and no
    retired worker. *)
Definition markers_account (s : state) : Prop :=
  match joiner s with
  | None => n_markers s = 0%nat ∧ n_retired s = 0%nat
  | Some (JoinPutting k) =>
      (1 ≤ k)%nat ∧ is_Some (workers s) ∧
      (n_markers s + n_retired s + k)%nat = Z.to_nat (num_workers c)
  | Some JoinGathering =>
      is_Some (workers s) ∧
      (n_markers s + n_retired s)%nat = Z.to_nat (num_workers c)
  end.

(** It holds as long as no worker has crashed. *)
Definition inv_markers (s : state) : Prop := no_crash s → markers_account s.

Record wf (s : state) : Prop := mkWf {
  wf_tasks : inv_tasks s;
  wf_capacity : inv_capacity s;
  wf_width : inv_width s;
  wf_active : inv_active s;
  wf_futures : inv_futures s;
  wf_markers : inv_markers s
}.


End Invariants.

(** ** Pools and properties used in the statements below *)

(** One worker, capacity one, no window, no futures. *)
Definition pool_one : config :=
  mkConfig 1 1 None None false false None None.

(** The window given as the annotated [int]: one second. *)
Definition pool_int_window : config :=
  mkConfig 1 1 (Some (PyInt 1)) None false false None None.

(** A window of [timedelta(0)]. *)
Definition pool_zero_window : config :=
  mkConfig 1 1 (Some (PyTimedelta 0)) None false false None None.

(** No workers at all: [asyncio.Queue(0)]. *)
Definition pool_no_workers : config :=
  mkConfig 0 1 None None false false None None.

(** One worker, futures and [raise_on_join] switched on. *)
Definition pool_futures : config :=
  mkConfig 1 1 None None true true None None.

(** Two workers with load factor one, the scenario of the back-pressure
    test. *)
Definition pool_two : config :=
  mkConfig 2 1 None None false false None None.

(** "0 <= active_workers <= N at all times". *)
Definition active_workers_bounded : Prop :=
  ∀ c s, reachable c s → 0 ≤ active_workers s ≤ num_workers c.



(** "For every N and L >= 1 the occupancy never exceeds N x L". *)
Definition occupancy_bounded : Prop :=
  ∀ c s, 1 ≤ load_factor c → reachable c s →
    Z.of_nat (length (items (queue s))) ≤ num_workers c * load_factor c.

(** "With a nonnegative window the first push never fails with the
    acceptance-window-expired error". *)
Definition first_push_never_expires : Prop :=
  ∀ c w s t_first t_check args s' o,
    job_accept_duration c = Some w → 0 ≤ duration_us w →
    first_push_dt s = None → t_first ≤ t_check →
    exec c (CallPush t_first t_check args) s = Some (s', o) →
    o ≠ PushRaised TimeoutError.


(** Back-pressure at a state [s] of a pool of capacity [N x L]: the
    occupancy is within the capacity; below the capacity no push is
    suspended; a push meeting a full queue leaves queue and counter alone
    and is either refused by the window guard or suspended; suspended puts
    stay suspended while the queue is full; a dequeue lets one of them
    through. *)
Definition capacity_spec (c : config) (s : state) : Prop :=
  let cap := num_workers c * load_factor c in
  maxsize (queue (init c)) = cap ∧
  maxsize (queue s) = cap ∧
  Z.of_nat (length (items (queue s))) ≤ cap ∧
  (Z.of_nat (length (items (queue s))) < cap →
     ∀ t_first t_check args s1 o,
       exec c (CallPush t_first t_check args) s = Some (s1, o) →
       o ≠ PushSuspended ∧
       ((∃ e, o = PushRaised e ∧ (e = TimeoutError ∨ e = TypeError) ∧
              queue s1 = queue s) ∨
        (∃ future, items (queue s1) = items (queue s) ++ [Work future args]))) ∧
  (Z.of_nat (length (items (queue s))) = cap →
     (∀ t_first t_check args s1 o,
        exec c (CallPush t_first t_check args) s = Some (s1, o) →
        queue s1 = queue s ∧ total_queued s1 = total_queued s ∧
        ((∃ future, o = PushSuspended ∧
                    putters s1 = putters s ++ [Work future args]) ∨
         (o = PushRaised TimeoutError ∧ putters s1 = putters s) ∨
         (o = PushRaised TypeError ∧ putters s1 = putters s))) ∧
     (∀ j, exec c (ResumePush j) s = None) ∧
     (∀ i s1 o j future args,
        exec c (WorkerGet i) s = Some (s1, o) →
        putters s !! j = Some (Work future args) →
        ∃ s2 o2, exec c (ResumePush j) s1 = Some (s2, o2) ∧
                 items (queue s2) = items (queue s1) ++ [Work future args] ∧
                 total_queued s2 = total_queued s1 + 1)).

(** The state a schedule leads to from a fresh pool. *)
Definition state_of (c : config) (ls : list label) : state :=
  match run c ls (init c) with
  | Some (s, _) => s
  | None => init c
  end.

(** A pool with futures whose only worker is in the middle of an item. *)
Definition busy_pool : state :=
  state_of pool_futures [CallStart; CallPush 0 0 7; WorkerGet 0%nat].




(** ** Callers that do more than await

    [exec] is the pool among callers that only await what [push] hands
    them.  A caller can do more with a handle: awaiting it under a timeout
    cancels it when the time is up, and so does [Future.cancel()].  And the
    await of line 62 can raise instead of handing over an item, when the
    worker task is cancelled or a signal arrives there.  [exec_env] adds
    both to the steps of [exec]. *)

(** [Future.cancel()]: a pending future becomes cancelled and the call
    answers [True]; a future that is done stays as it is. *)
Definition future_cancel (f : future_id) : Py bool := λ s,
  match futures s !! f with
  | Some Pending => Ok true (set_futures (<[f := Cancelled]> (futures s)) s)
  | _ => Ok false s
  end.

(** The pass of [_worker_loop] in which the await of line 62 raises [e]:
    [got_obj] is still [False] and [future] still [None] when the handlers
    of lines 76-88 and the [finally] block run. *)
Definition worker_loop_get_raised (e : exn) : Py worker :=
  try_finally
    (try_except
       (raise e)
       (λ e,
          if unrecoverable e then
            modify (set_exceptions true) ;;
            raise e
          else
            modify (set_exceptions true) ;;
            log ExceptionWorkerCallFailed))
    (release false) ;;
  mret Waiting.

(** The caller holds future [f] once the push that created it has
    returned: the future exists and no suspended put carries it.  (A push
    that raised at line 140 has handed its future to nobody; counting it in
    only adds behaviours.) *)
Definition handed_out (f : future_id) (s : state) : bool :=
  bool_decide (f < length (futures s))%nat &&
  bool_decide (sum_list_with (item_holds f) (putters s) = 0%nat).

Inductive event :=
| Step (l : label)               (* a step of [exec] *)
| CancelFuture (f : future_id)   (* the caller cancels the handle [f] *)
| GetRaises (i : nat) (e : exn). (* the await of line 62 of worker [i] raises [e] *)

Section Callers.
Variable c : config.

Definition exec_env (ev : event) (s : state) : option (state * obs) :=
  match ev with
  | Step l => exec c l s
  | CancelFuture f =>
      if handed_out f s then
        match future_cancel f s with
        | Ok _ s' => Some (s', Tau)
        | Raise _ s' => Some (s', Tau)
        end
      else None
  | GetRaises i e =>
      match worker_at i s with
      | Some Waiting => Some (worker_step i (worker_loop_get_raised e) s)
      | _ => None
      end
  end.

Fixpoint run_env (evs : list event) (s : state) : option (state * list obs) :=
  match evs with
  | [] => Some (s, [])
  | ev :: evs' =>
      match exec_env ev s with
      | None => None
      | Some (s1, o) =>
          match run_env evs' s1 with
          | None => None
          | Some (s2, os) => Some (s2, o :: os)
          end
      end
  end.

Definition reachable_env (s : state) : Prop :=
  ∃ evs os, run_env evs (init c) = Some (s, os).

(** Every future is held at most once, and a held future has not been
    resolved: it is pending, or its caller has cancelled it. *)
Definition inv_handles (s : state) : Prop :=
  ∀ f, (holders f s ≤ 1)%nat ∧
       ((1 ≤ holders f s)%nat →
        futures s !! f = Some Pending ∨ futures s !! f = Some Cancelled).

End Callers.



(** Workers that ended with an exception that is neither in the tuple of
    line 76 nor the [InvalidStateError] of a future; workers that ended with
    the latter. *)
Definition stray_crash_w (w : worker) : nat :=
  match w with
  | Crashed InvalidStateError => 0
  | Crashed e => if unrecoverable e then 0 else 1
  | _ => 0
  end.
Definition state_crash_w (w : worker) : nat :=
  match w with
  | Crashed InvalidStateError => 1
  | _ => 0
  end.

(** The state a schedule with such callers leads to from a fresh pool. *)
Definition state_of_env (c : config) (evs : list event) : state :=
  match run_env c evs (init c) with
  | Some (s, _) => s
  | None => init c
  end.

(** [busy_pool] after the caller has cancelled the handle of the item the
    worker is running, and the same pool once the call has returned. *)
Definition cancelled_pool : state :=
  state_of_env pool_futures
    [Step CallStart; Step (CallPush 0 0 7); Step (WorkerGet 0%nat);
     CancelFuture 0%nat].
Definition cancelled_pool_done : state :=
  state_of_env pool_futures
    [Step CallStart; Step (CallPush 0 0 7); Step (WorkerGet 0%nat);
     CancelFuture 0%nat; Step (WorkerResume 0%nat (Returned 1))].


(** ** The claims about flag and handles, as stated and as they hold *)










(** ** Further measures of schedules and states *)

(** A push whose put went through: it returned, or it raised on the
    [log_every_n] test after the put. *)
Definition put_w (o : obs) : nat :=
  match o with
  | PushReturned _ | PushRaised ZeroDivisionError => 1
  | _ => 0
  end.

(** [logger.info("pushed ...")] records. *)
Definition pushed_w (r : log_record) : nat :=
  match r with InfoPushed _ _ => 1 | _ => 0 end.

(** The clock reading the first [push] of a schedule stores. *)
Fixpoint first_push_reading (ls : list label) : option datetime :=
  match ls with
  | [] => None
  | CallPush t_first _ _ :: _ => Some t_first
  | _ :: ls' => first_push_reading ls'
  end.

(** Where the worker that dequeued [x] stands afterwards. *)
Definition took (x : item) : worker :=
  match x with
  | Work future args => Running future args
  | Terminator => Retired
  end.

(** Where a worker stands after the await of line 72 came back with [o]. *)
Definition resumed (o : outcome) : worker :=
  match o with
  | Returned _ => Waiting
  | Raised e => if unrecoverable e then Crashed e else Waiting
  end.

(** ** Further pools and states used in the statements below *)

(** One worker, room for three items, "pushed" logged every second item of
    an expected ten. *)
Definition pool_cadence : config :=
  mkConfig 1 3 None None false false (Some 2) (Some 10).

(** A cadence of zero. *)
Definition pool_zero_cadence : config :=
  mkConfig 1 1 None None false false (Some 0) None.

(** Three items pushed under [pool_cadence]. *)
Definition cadence_pool : state :=
  state_of pool_cadence
    [CallStart; CallPush 0 0 1; CallPush 0 0 2; CallPush 0 0 3].

(** A pool whose only worker has died of [MemoryError]. *)
Definition crashed_pool : state :=
  state_of pool_futures
    [CallStart; CallPush 0 0 7; WorkerGet 0%nat;
     WorkerResume 0%nat (Raised MemoryError)].

(** A started pool without workers that has been given one item. *)
Definition idle_pool : state :=
  state_of pool_no_workers [CallStart; CallPush 0 0 7].

(** [crashed_pool] after a join and another start have been tried. *)
Definition crashed_pool_retried : state :=
  state_of pool_futures
    [CallStart; CallPush 0 0 7; WorkerGet 0%nat;
     WorkerResume 0%nat (Raised MemoryError);
     CallJoin; JoinPut; GatherRaise 0%nat; CallStart].

(** * Download: one yt-dlp download in a child process (src/app/Download.py)

    The parts of the class that decide something: the two hooks that post
    status messages, the test with which [progress_update] accepts a
    message, and the methods around the child process and the temporary
    directory.  [multiprocessing.Process] and the file system are modelled
    as far as these methods use them. *)

Module Download.

(** Values found in the dicts of yt-dlp and in status messages. *)
Inductive pyval :=
| VNone
| VStr (s : string)
| VInt (n : Z)
| VFloat (repr : string).

#[global] Instance pyval_eq_dec : EqDecision pyval.
Proof. solve_decision. Defined.

Inductive error :=
| AttributeError         (* a method of [None] *)
| KeyError (key : string)
| TypeError
| ValueError.            (* [multiprocessing.Process] refusing *)

(** [Download._ytdlp_fields], lines 33-43. *)
Definition _ytdlp_fields : list string :=
  ["tmpfilename"; "filename"; "status"; "msg"; "total_bytes";
   "total_bytes_estimate"; "downloaded_bytes"; "speed"; "eta"].

(** A [multiprocessing.Process] object. *)
Inductive process :=
| Created   (* constructed, no child yet *)
| Alive     (* the child runs *)
| Exited    (* the child has ended *)
| Closed.   (* [close] went through *)

Record download := mkDownload {
  id : string;                          (* self.id *)
  temp_dir : string;                    (* self.temp_dir *)
  tempPath : option string;             (* self.tempPath *)
  tempKeep : bool;                      (* self.tempKeep *)
  canceled : bool;                      (* self.canceled *)
  proc : option process;                (* self.proc *)
  status_queue : option (list (gmap string pyval));  (* self.status_queue *)
  info_status : option string;          (* self.info.status *)
  info_live : bool;                     (* truth of info.live_in or info.is_live *)
  kills : nat;                          (* SIGKILLs sent through [proc.kill] *)
  fs : gset string                      (* the paths that exist *)
}.

Definition set_canceled (b : bool) (d : download) : download :=
  mkDownload (id d) (temp_dir d) (tempPath d) (tempKeep d) b (proc d)
             (status_queue d) (info_status d) (info_live d) (kills d) (fs d).
Definition set_proc (p : option process) (d : download) : download :=
  mkDownload (id d) (temp_dir d) (tempPath d) (tempKeep d) (canceled d) p
             (status_queue d) (info_status d) (info_live d) (kills d) (fs d).
Definition set_status_queue (q : option (list (gmap string pyval)))
  (d : download) : download :=
  mkDownload (id d) (temp_dir d) (tempPath d) (tempKeep d) (canceled d) (proc d)
             q (info_status d) (info_live d) (kills d) (fs d).
Definition set_kills (n : nat) (d : download) : download :=
  mkDownload (id d) (temp_dir d) (tempPath d) (tempKeep d) (canceled d) (proc d)
             (status_queue d) (info_status d) (info_live d) n (fs d).
Definition set_info (status : option string) (live : bool) (d : download)
  : download :=
  mkDownload (id d) (temp_dir d) (tempPath d) (tempKeep d) (canceled d) (proc d)
             (status_queue d) status live (kills d) (fs d).
Definition set_fs (f : gset string) (d : download) : download :=
  mkDownload (id d) (temp_dir d) (tempPath d) (tempKeep d) (canceled d) (proc d)
             (status_queue d) (info_status d) (info_live d) (kills d) f.

(** ** The hooks, lines 77-97 *)

(** [{'id': self.id, **dicto}] with [dicto] the entries of [data] whose key
    is one of [_ytdlp_fields]: keys of [dicto] win over ['id']. *)
Definition progress_message (self_id : string) (data : gmap string pyval)
  : gmap string pyval :=
  filter (λ kv, kv.1 ∈ _ytdlp_fields) data ∪ {["id" := VStr self_id]}.

Definition put (m : gmap string pyval) (d : download) : error + download :=
  match status_queue d with
  | None => inl AttributeError
  | Some q => inr (set_status_queue (Some (q ++ [m])) d)
  end.

Definition _progress_hook (data : gmap string pyval) (d : download)
  : error + download :=
  put (progress_message (id d) data) d.

Section Paths.
(** [os.path.join] and [os.path.basename]. *)
Variable path_join : string → string → string.
Variable path_basename : string → string.

Definition as_str (v : pyval) : error + string :=
  match v with VStr s => inr s | _ => inl TypeError end.

(** [data] comes as its flat entries and, apart, the dict under
    ['info_dict'] if there is one. *)
Definition _postprocessor_hook (data : gmap string pyval)
  (info_dict : option (gmap string pyval)) (d : download) : error + download :=
  if bool_decide (data !! "postprocessor" ≠ Some (VStr "MoveFiles")) ||
     bool_decide (data !! "status" ≠ Some (VStr "finished"))
  then inr d
  else
    match info_dict with
    | None => inl (KeyError "info_dict")
    | Some info =>
        match info !! "filepath" with
        | None => inl (KeyError "filepath")
        | Some filepath =>
            match
              match info !! "__finaldir" with
              | Some finaldir =>
                  match as_str finaldir, as_str filepath with
                  | inr a, inr b => inr (VStr (path_join a (path_basename b)))
                  | _, _ => inl TypeError
                  end
              | None => inr filepath
              end
            with
            | inl e => inl e
            | inr filename =>
                put (<["filename" := filename]>
                       (<["status" := VStr "finished"]>
                          {["id" := VStr (id d)]})) d
            end
        end
    end.
End Paths.

(** Line 233 of [progress_update]: the messages on which the loop returns
    at once. *)
Definition update_stops (self_id : string) (status : gmap string pyval) : bool :=
  bool_decide (default VNone (status !! "id") ≠ VStr self_id) ||
  bool_decide (size status < 2)%nat.

(** ** The child process, lines 183-205 *)

Definition is_alive (p : process) : error + bool :=
  match p with
  | Closed => inl ValueError
  | Alive => inr true
  | Created | Exited => inr false
  end.

Definition started (d : download) : bool := bool_decide (proc d ≠ None).

Definition running (d : download) : error + bool :=
  match proc d with
  | None => inr false
  | Some p => is_alive p
  end.

Definition kill (d : download) : error + download :=
  match running d with
  | inl e => inl e
  | inr true => inr (set_kills (S (kills d)) d)
  | inr false => inr d
  end.

Definition cancel (d : download) : error + download :=
  match kill d with
  | inl e => inl e
  | inr d' => inr (set_canceled true d')
  end.

Definition is_canceled (d : download) : bool := canceled d.

(** ** The temporary directory, lines 190-225 *)

(** The file system is the set [fs] of the paths that exist.  Each of them
    is written one way: no separator at the end, no [.] or [..], no doubled
    separator, the root directory as the empty string; nothing is a symbolic
    link.  A path handed to the operating system may end in separators,
    which do not count: ["/tmp/x/"] is the directory ["/tmp/x"]. *)
Fixpoint strip_slashes (p : string) : string :=
  match p with
  | EmptyString => EmptyString
  | String a p' =>
      match strip_slashes p' with
      | EmptyString => if String.eqb (String a EmptyString) "/" then EmptyString
                       else String a EmptyString
      | r => String a r
      end
  end.

(** [os.path.exists(p)]; the root directory always exists. *)
Definition path_exists (p : string) (f : gset string) : bool :=
  negb (String.eqb p "") &&
  (String.eqb (strip_slashes p) "" || bool_decide (strip_slashes p ∈ f)).

(** The directory [p] itself or a path below it. *)
Definition under (p q : string) : bool :=
  String.eqb q (strip_slashes p) || String.prefix (strip_slashes p +:+ "/") q.

(** [shutil.rmtree(p, ignore_errors=True)] removes at most the tree of [p];
    here it removes all of it. *)
Definition rmtree (p : string) (f : gset string) : gset string :=
  filter (λ q, under p q = false) f.

(** [os.path.join(a, b)] of [posixpath]. *)
Fixpoint ends_with_slash (a : string) : bool :=
  match a with
  | EmptyString => false
  | String x EmptyString => String.eqb (String x EmptyString) "/"
  | String _ a' => ends_with_slash a'
  end.

Definition os_path_join (a b : string) : string :=
  if String.prefix "/" b then b
  else if String.eqb a "" || ends_with_slash a then a +:+ b
  else a +:+ "/" +:+ b.

(** What [hexdigest] returns: hexadecimal digits, at least one. *)
Definition hex_digit (x : Ascii.ascii) : bool :=
  existsb (Ascii.eqb x) (String.list_ascii_of_string "0123456789abcdef").

Fixpoint all_hex (s : string) : bool :=
  match s with
  | EmptyString => true
  | String x s' => hex_digit x && all_hex s'
  end.

Definition is_hexdigest (s : string) : bool :=
  negb (String.eqb s "") && all_hex s.

Definition delete_temp (d : download) : download :=
  match tempPath d with
  | None => d
  | Some p =>
      if tempKeep d || bool_decide (p = "") then d
      else if bool_decide (info_status d ≠ Some "finished") && info_live d
           then d
      else if negb (path_exists p (fs d)) then d
      else if bool_decide (p = temp_dir d) then d
      else set_fs (rmtree p (fs d)) d
  end.

(** [Process.close]: not while the child runs. *)
Definition process_close (p : process) : error + process :=
  match p with
  | Alive => inl ValueError
  | _ => inr Closed
  end.

Definition close (d : download) : error + download :=
  match proc d with
  | None => inr (delete_temp d)
  | Some p =>
      match process_close p with
      | inl e => inl e
      | inr p' => inr (delete_temp (set_proc (Some p') d))
      end
  end.

(** ** What can happen to a download *)

Inductive op :=
| Cancel
| Kill
| Close
| DeleteTemp
| ChildExits                 (* the child process ends *)
| FileAppears (path : string)   (* somebody creates a file or directory *)
| InfoChanges (status : option string) (live : bool).
                             (* [self.info] is updated *)

(** A failing call leaves the download as it was. *)
Definition apply (o : op) (d : download) : download :=
  match o with
  | Cancel => match cancel d with inr d' => d' | inl _ => d end
  | Kill => match kill d with inr d' => d' | inl _ => d end
  | Close => match close d with inr d' => d' | inl _ => d end
  | DeleteTemp => delete_temp d
  | ChildExits =>
      match proc d with
      | Some Alive => set_proc (Some Exited) d
      | _ => d
      end
  | FileAppears path => set_fs ({[path]} ∪ fs d) d
  | InfoChanges status live => set_info status live d
  end.

Definition apply_all (os : list op) (d : download) : download :=
  foldl (λ d o, apply o d) d os.

(** The operations that call [kill]. *)
Definition kill_w (o : op) : nat :=
  match o with Cancel | Kill => 1 | _ => 0 end.

(** A download whose child runs, with a part file in its own temporary
    directory and a finished file elsewhere. *)
Definition sample : download :=
  mkDownload "a1" "/tmp" (Some "/tmp/0f3a9c21d4") false false (Some Alive)
             (Some []) (Some "downloading") false 0
             {[ "/tmp"; "/tmp/0f3a9c21d4"; "/tmp/0f3a9c21d4/video.part";
                "/data/video.mp4" ]}.

(** The same download once the child has ended and [close] has been
    called. *)
Definition sample_closed : download := apply_all [ChildExits; Close] sample.

(** A download whose [tempPath] is the main temporary directory written
    with a separator at its end. *)
Definition sample_slash : download :=
  mkDownload "a1" "/tmp" (Some "/tmp/") false false None
             None (Some "finished") false 0
             {[ "/tmp"; "/tmp/0f3a9c21d4"; "/data/video.mp4" ]}.

(** A live stream that is still being recorded. *)
Definition sample_live : download :=
  set_info (Some "downloading") true sample.

End Download.

(** * Proofs *)

(** ** Sums over lists updated in place *)

Lemma sum_list_with_insert {A} (f : A → nat) (l : list A) i x y :
  l !! i = Some x →
  (sum_list_with f (<[i:=y]> l) + f x = sum_list_with f l + f y)%nat.
Proof.
  revert i. induction l as [|a l IH]; intros [|i] H; simplify_eq/=; try lia.
  specialize (IH _ H). lia.
Qed.

Lemma sum_list_with_delete {A} (f : A → nat) (l : list A) i x :
  l !! i = Some x →
  (sum_list_with f (delete i l) + f x = sum_list_with f l)%nat.
Proof.
  revert i. induction l as [|a l IH]; intros [|i] H; simplify_eq/=; try lia.
  specialize (IH _ H). lia.
Qed.

Lemma sum_list_with_lookup {A} (f : A → nat) (l : list A) i x :
  l !! i = Some x → (f x ≤ sum_list_with f l)%nat.
Proof. intros H. apply sum_list_with_in. eapply list_elem_of_lookup_2, H. Qed.

Lemma sum_list_with_replicate {A} (f : A → nat) n x :
  sum_list_with f (replicate n x) = (n * f x)%nat.
Proof. induction n; simpl; lia. Qed.

Lemma sum_list_with_zero {A} (f : A → nat) (l : list A) :
  (∀ x, x ∈ l → f x = 0%nat) → sum_list_with f l = 0%nat.
Proof.
  induction l as [|a l IH]; intros H; simpl; [done|].
  rewrite (H a), IH; [done| |].
  - intros x Hx. apply H. by right.
  - by left.
Qed.

Lemma all_retired_spec ws x : all_retired ws = true → x ∈ ws → x = Retired.
Proof.
  unfold all_retired. rewrite forallb_forall. intros H Hx.
  apply list_elem_of_In in Hx. apply H in Hx. by apply bool_decide_eq_true in Hx.
Qed.

Lemma all_retired_sum (f : worker → nat) ws :
  all_retired ws = true → f Retired = 0%nat → sum_list_with f ws = 0%nat.
Proof.
  intros H H0. apply sum_list_with_zero. intros x Hx.
  by rewrite (all_retired_spec _ _ H Hx).
Qed.

Lemma all_retired_count ws :
  all_retired ws = true → sum_list_with retired_w ws = length ws.
Proof.
  induction ws as [|w ws IH]; simpl; [done|].
  intros [H1 H2]%andb_true_iff. apply bool_decide_eq_true in H1. subst.
  rewrite IH; done.
Qed.

(** ** Unfolding one step *)

(** Unfold the method bodies and the monad down to matches on the state. *)
Ltac py_unfold :=
  unfold worker_step, worker_loop_dequeued, worker_loop_resumed, release,
    push_finish, push_before_put, push_after_put, start, join_finish,
    join_before_put, join_after_gather, set_result, set_exception, resolve,
    new_future, log, try_finally, try_except, lift, task_done, get_nowait,
    timedelta_gt, full, truthy, after_put, mbind, Py_bind, mret, Py_ret,
    modify, gets, raise in *.

(** Compute projections of updated states. *)
Ltac sproj :=
  cbn [queue workers exceptions first_push_dt total_queued active_workers
       futures logger putters joiner set_queue set_workers set_exceptions
       set_first_push_dt set_total_queued set_active_workers set_futures
       set_logger set_putters set_joiner set_worker maxsize items
       unfinished_tasks put_nowait] in *.

(** All the ways the step [H : exec c l s = Some (s', o)] can have gone. *)
Ltac step_cases H :=
  unfold exec in H; py_unfold;
  repeat (first [ progress simplify_eq | progress sproj | case_match ]).

(** Turn [worker_at i s = Some w] into a fact about the list of workers. *)
Ltac open_workers :=
  repeat match goal with
  | H : worker_at ?i ?s = Some ?w |- _ =>
      unfold worker_at in H;
      let ws := fresh "ws" in
      let E := fresh "Ews" in
      destruct (workers s) as [ws|] eqn:E; [|discriminate H];
      cbn [mbind option_bind] in H
  end.

(** Relate the sum over an updated list to the sum over the list. *)
Ltac sum_facts :=
  repeat match goal with
  | H : ?l !! ?i = Some ?x |- context [sum_list_with ?f (<[?i:=?y]> ?l)] =>
      let E := fresh "E" in
      pose proof (sum_list_with_insert f l i x y H) as E;
      generalize dependent (sum_list_with f (<[i:=y]> l)); intros
  | H : ?l !! ?i = Some ?x |- context [sum_list_with ?f (delete ?i ?l)] =>
      let E := fresh "E" in
      pose proof (sum_list_with_delete f l i x H) as E;
      generalize dependent (sum_list_with f (delete i l)); intros
  end.

(** Expose the list of workers and the sums the measures stand for. *)
Ltac use_workers :=
  open_workers;
  unfold n_running, n_retired, n_crashed, n_markers, holders,
    workers_list in *;
  sproj;
  repeat match goal with
  | H : workers _ = _ |- _ => rewrite H in *
  | H : items _ = _ |- _ => rewrite H in *
  end;
  cbn [fmap option_fmap option_map default from_option id] in *;
  repeat match goal with
  | H : all_retired ?ws = true |- _ =>
      pose proof (all_retired_sum running_w ws H eq_refl);
      pose proof (all_retired_sum waiting_w ws H eq_refl);
      pose proof (all_retired_sum crashed_w ws H eq_refl);
      pose proof (all_retired_count ws H);
      pose proof (λ f, all_retired_sum (worker_holds f) ws H eq_refl);
      clear H
  end.

(** Bring all sums into a shape [lia] can work with. *)
Ltac sums :=
  sum_facts;
  rewrite ?length_app, ?sum_list_with_app, ?sum_list_with_replicate in *;
  cbn [length sum_list_with running_w waiting_w retired_w crashed_w marker_w] in *.

Section InvariantProofs.
Variable c : config.

Lemma inv_tasks_step l s s' o :
  inv_tasks s → exec c l s = Some (s', o) → inv_tasks s'.
Proof.
  intros I H. destruct l; step_cases H.
  all: unfold inv_tasks in *; use_workers; sums; try lia.
Qed.

Lemma inv_capacity_step l s s' o :
  inv_capacity c s → exec c l s = Some (s', o) → inv_capacity c s'.
Proof.
  intros I H. destruct l; step_cases H.
  all: unfold inv_capacity in *; use_workers; sums; try lia.
Qed.

Lemma inv_width_step l s s' o :
  inv_width c s → exec c l s = Some (s', o) → inv_width c s'.
Proof.
  intros I H. destruct l; step_cases H.
  all: unfold inv_width in *; use_workers; try done.
  all: intros ? ?; simplify_eq; rewrite ?length_insert, ?length_replicate; auto.
Qed.

Lemma inv_active_step l s s' o :
  inv_active s → exec c l s = Some (s', o) → inv_active s'.
Proof.
  intros I H. destruct l; step_cases H.
  all: unfold inv_active in *; use_workers; sums; try lia.
Qed.

Lemma inv_futures_step l s s' o :
  inv_futures s → exec c l s = Some (s', o) → inv_futures s'.
Proof.
  intros I H. destruct l; step_cases H.
  all: unfold inv_futures in *; use_workers; try done.
  all: intros h; pose proof (I h) as [I1 I2].
  all: sums; cbn [item_holds worker_holds] in *.
  all: repeat case_decide; simplify_eq.
  all: match type of I2 with
       | (1 ≤ ?X)%nat → _ =>
           destruct (decide (1 ≤ X)%nat) as [Hh|Hh]; [specialize (I2 Hh)|clear I2]
       end.
  all: try (rewrite lookup_ge_None_2 in I2 by lia; discriminate I2).
  all: try (split; [lia|intros Hh'; try lia]).
  all: try done.
  all: try (by apply lookup_app_l_Some).
  all: try (by apply list_lookup_middle).
  all: try (rewrite list_lookup_insert_ne by done; done).
Qed.

Lemma inv_markers_step l s s' o :
  inv_tasks s → inv_width c s → inv_markers c s →
  exec c l s = Some (s', o) → inv_markers c s'.
Proof.
  intros It Iw I H. destruct l; step_cases H.
  all: unfold inv_markers, markers_account, inv_tasks, inv_width, no_crash in *;
    use_workers.
  all: try pose proof (Iw _ eq_refl).
  all: try match goal with
       | H : ?l !! ?i = Some (Crashed ?e) |- _ =>
           pose proof (sum_list_with_lookup crashed_w l i _ H)
       end.
  all: sums; intros.
  all: try (exfalso; lia).
  all: try match type of I with
       | ?P → _ => assert (HP : P) by lia; specialize (I HP)
       end.
  all: repeat case_match; simplify_eq; sproj; destruct_and?.
  all: try match goal with H : is_Some None |- _ => by destruct H end.
  all: repeat split; eauto; try lia.
Qed.
End InvariantProofs.

(** ** Schedules and reachable states *)

Section Reachability.
Variable c : config.

Lemma run_app ls1 ls2 s :
  run c (ls1 ++ ls2) s =
  match run c ls1 s with
  | None => None
  | Some (s1, os1) =>
      match run c ls2 s1 with
      | None => None
      | Some (s2, os2) => Some (s2, os1 ++ os2)
      end
  end.
Proof.
  revert s. induction ls1 as [|l ls1 IH]; intros s; simpl.
  - by destruct (run c ls2 s) as [[??]|].
  - destruct (exec c l s) as [[s1 o]|]; [|done].
    rewrite IH. destruct (run c ls1 s1) as [[s2 os]|]; [|done].
    by destruct (run c ls2 s2) as [[??]|].
Qed.

Lemma reachable_init : reachable c (init c).
Proof. by exists [], []. Qed.

Lemma reachable_step l s s' o :
  reachable c s → exec c l s = Some (s', o) → reachable c s'.
Proof.
  intros (ls & os & Hr) He. exists (ls ++ [l]), (os ++ [o]).
  rewrite run_app, Hr. simpl. by rewrite He.
Qed.

Lemma reachable_run ls s s' os :
  reachable c s → run c ls s = Some (s', os) → reachable c s'.
Proof.
  intros (ls0 & os0 & Hr) He. exists (ls0 ++ ls), (os0 ++ os).
  by rewrite run_app, Hr, He.
Qed.

(** Induction over the steps of a run. *)
Lemma run_invariant (P : state → Prop) :
  (∀ l s s' o, P s → exec c l s = Some (s', o) → P s') →
  ∀ ls s s' os, P s → run c ls s = Some (s', os) → P s'.
Proof.
  intros Hstep. induction ls as [|l ls IH]; intros s s' os HP Hr; simpl in Hr.
  - by simplify_eq.
  - destruct (exec c l s) as [[s1 o]|] eqn:He; [|done].
    destruct (run c ls s1) as [[s2 os']|] eqn:Hr'; simplify_eq.
    eapply IH; [|done]. eapply Hstep; done.
Qed.

Lemma wf_init : wf c (init c).
Proof.
  split.
  - reflexivity.
  - split; [reflexivity|]. simpl. lia.
  - intros ws H. discriminate H.
  - unfold inv_active. simpl. lia.
  - intros f. unfold holders. simpl. split; [lia|]. lia.
  - intros _. simpl. done.
Qed.

Lemma wf_step l s s' o : wf c s → exec c l s = Some (s', o) → wf c s'.
Proof.
  intros [] H. split;
    eauto using inv_tasks_step, inv_capacity_step, inv_width_step,
      inv_active_step, inv_futures_step, inv_markers_step.
Qed.

Lemma reachable_wf s : reachable c s → wf c s.
Proof.
  intros (ls & os & Hr).
  eapply (run_invariant (wf c)); [apply wf_step|apply wf_init|done].
Qed.

End Reachability.

(** ** The counter of active workers *)

(** The counter stays below [num_workers]. *)
Lemma active_workers_upper_bound c s :
  0 ≤ num_workers c → reachable c s → active_workers s ≤ num_workers c.
Proof.
  intros HN [_ _ Hw Ha _ _]%reachable_wf.
  unfold inv_active, inv_width, n_running, workers_list in *.
  destruct (workers s) as [ws|]; simpl in *; [|lia].
  specialize (Hw _ eq_refl).
  assert (sum_list_with running_w ws ≤ length ws)%nat; [|lia].
  clear. induction ws as [|[] ws IH]; simpl; lia.
Qed.

(** A worker that dequeues a marker leaves through [finally] and takes one
    off the counter it never added to. *)
Lemma marker_decrements_active c i s l :
  worker_at i s = Some Waiting → items (queue s) = Terminator :: l →
  0 < unfinished_tasks (queue s) →
  ∃ s', exec c (WorkerGet i) s = Some (s', Tau) ∧
        worker_at i s' = Some Retired ∧
        active_workers s' = active_workers s - 1.
Proof.
  intros Hw Hq Hu. unfold exec. rewrite Hw. py_unfold. rewrite Hq. sproj.
  assert ((unfinished_tasks (queue s) <=? 0) = false) as -> by lia.
  eexists. split; [done|]. sproj. split; [|done].
  unfold worker_at in *. sproj. destruct (workers s) as [ws|]; [|done].
  simpl in *. apply list_lookup_insert_eq. by eapply lookup_lt_Some.
Qed.

(** C1: the counter does not stay within [0, N].  With one worker, a start
    followed by a join leaves it at -1: the worker that dequeues the marker
    goes through the [finally] block without having gone through line 68.
    [get_available_workers] then reports two available workers out of
    one. *)
Theorem active_workers_negative_after_join :
  ∃ s os,
    run pool_one [CallStart; CallJoin; JoinPut; WorkerGet 0%nat; GatherDone]
        (init pool_one) = Some (s, os) ∧
    os = [StartReturned; Tau; Tau; Tau; JoinReturned] ∧
    active_workers s = -1 ∧
    get_available_workers pool_one s = 2 ∧
    ¬ active_workers_bounded.
Proof.
  eexists _, _. split; [vm_compute; reflexivity|].
  repeat split. intros Hb.
  destruct (Hb pool_one
    (state_of pool_one
       [CallStart; CallJoin; JoinPut; WorkerGet 0%nat; GatherDone])) as [H0 _];
    [|vm_compute in H0; by apply H0].
  exists [CallStart; CallJoin; JoinPut; WorkerGet 0%nat; GatherDone],
         [StartReturned; Tau; Tau; Tau; JoinReturned].
  vm_compute. reflexivity.
Qed.

(** ** The acceptance window *)

(** With the window given as a [timedelta], a push arriving more than the
    window after the first one is refused before anything else happens: no
    future, no put, no change to the pool but the timestamp of a first push. *)
Lemma push_expired_timedelta c w s t_first t_check args :
  job_accept_duration c = Some (PyTimedelta w) →
  w < t_check - default t_first (first_push_dt s) →
  exec c (CallPush t_first t_check args) s =
  Some (match first_push_dt s with
        | None => set_first_push_dt (Some t_first) s
        | Some _ => s
        end, PushRaised TimeoutError).
Proof.
  intros Hw Hlt. unfold exec. py_unfold. rewrite Hw.
  destruct (first_push_dt s) as [t0|] eqn:Hf; sproj; simpl in *.
  - rewrite Hf. simpl. by assert ((w <? t_check - t0) = true) as -> by lia.
  - by assert ((w <? t_check - t_first) = true) as -> by lia.
Qed.

(** Once refused, refused for good: the timestamp stays, later readings of
    the clock are no earlier. *)
Lemma push_expired_again c w s t_first t_check args s' t_first' t_check' args' :
  job_accept_duration c = Some (PyTimedelta w) →
  w < t_check - default t_first (first_push_dt s) →
  exec c (CallPush t_first t_check args) s = Some (s', PushRaised TimeoutError) →
  t_check ≤ t_check' →
  exec c (CallPush t_first' t_check' args') s' = Some (s', PushRaised TimeoutError).
Proof.
  intros Hw Hlt He Hle.
  rewrite (push_expired_timedelta _ _ _ _ _ _ Hw Hlt) in He.
  rewrite (push_expired_timedelta c w s' t_first' t_check' args' Hw).
  - destruct (first_push_dt s) eqn:Hf; simplify_eq; [by rewrite Hf|done].
  - destruct (first_push_dt s) eqn:Hf; simplify_eq; [rewrite Hf|]; simpl in *; lia.
Qed.

(** With the window given as an [int], as annotated, every push fails on the
    comparison of line 133. *)
Lemma push_int_window_raises c n s t_first t_check args :
  job_accept_duration c = Some (PyInt n) →
  exec c (CallPush t_first t_check args) s =
  Some (match first_push_dt s with
        | None => set_first_push_dt (Some t_first) s
        | Some _ => s
        end, PushRaised TypeError).
Proof.
  intros Hw. unfold exec. py_unfold. rewrite Hw.
  by destruct (first_push_dt s).
Qed.

(** C3: with a window of one second given as the annotated [int], the push
    made two seconds after the first one does not fail with the
    [TimeoutError] of line 134 but with [TypeError], and so did the first
    one. *)
Theorem push_int_window_type_error :
  run pool_int_window [CallPush 0 0 7; CallPush 2000000 2000000 8]
      (init pool_int_window) =
  Some (set_first_push_dt (Some 0) (init pool_int_window),
        [PushRaised TypeError; PushRaised TypeError]).
Proof. reflexivity. Qed.

(** C10, as stated, fails: with a window of [timedelta(0)] and a clock that
    moves by one microsecond between lines 131 and 133 the first push is
    refused. *)
Lemma first_push_can_expire : ¬ first_push_never_expires.
Proof.
  intros H.
  apply (H pool_zero_window (PyTimedelta 0) (init pool_zero_window) 0 1 7
           (state_of pool_zero_window [CallPush 0 1 7])
           (PushRaised TimeoutError));
    [reflexivity|simpl; lia|reflexivity|lia|vm_compute; reflexivity|reflexivity].
Qed.

(** C10, amended: the first push is not refused by the window guard when
    the clock reading taken for the check is at most the window later than
    the reading just stored as the timestamp of the first push. *)
Theorem first_push_within_window c w s t_first t_check args s' o :
  job_accept_duration c = Some w →
  first_push_dt s = None →
  t_check - t_first ≤ duration_us w →
  exec c (CallPush t_first t_check args) s = Some (s', o) →
  o ≠ PushRaised TimeoutError ∧ first_push_dt s' = Some t_first.
Proof.
  intros Hw Hf Hle He. unfold exec in He. py_unfold.
  rewrite Hw, Hf in He. sproj. simpl in He. destruct w as [n|w]; simpl in *.
  { simplify_eq. done. }
  assert ((w <? t_check - t_first) = false) as Hlt by lia.
  rewrite Hlt in He.
  repeat (first [ progress simplify_eq | progress sproj | case_match ]); done.
Qed.

Lemma first_push_within_window_witness :
  job_accept_duration pool_zero_window = Some (PyTimedelta 0) ∧
  first_push_dt (init pool_zero_window) = None ∧
  0 - 0 ≤ duration_us (PyTimedelta 0) ∧
  exec pool_zero_window (CallPush 0 0 7) (init pool_zero_window) =
    Some (state_of pool_zero_window [CallPush 0 0 7], PushReturned None) ∧
  PushReturned None ≠ PushRaised TimeoutError ∧
  first_push_dt (state_of pool_zero_window [CallPush 0 0 7]) = Some 0.
Proof.
  split; [reflexivity|]. split; [reflexivity|]. split; [simpl; lia|].
  split; [vm_compute; reflexivity|].
  apply (first_push_within_window pool_zero_window (PyTimedelta 0)
           (init pool_zero_window) 0 0 7
           (state_of pool_zero_window [CallPush 0 0 7]) (PushReturned None));
    [reflexivity|reflexivity|simpl; lia|vm_compute; reflexivity].
Defined.

(** ** What join hands back *)




(** ** Capacity and back-pressure *)

(** C9, as stated, fails: a pool of zero workers owns [asyncio.Queue(0)],
    which is unbounded, so one push already exceeds [N x L = 0]. *)
Lemma occupancy_unbounded_without_workers : ¬ occupancy_bounded.
Proof.
  intros H.
  assert (reachable pool_no_workers
            (state_of pool_no_workers [CallPush 0 0 7]))
    as Hr by (exists [CallPush 0 0 7], [PushReturned None]; vm_compute; reflexivity).
  apply H in Hr; [|simpl; lia]. vm_compute in Hr. by apply Hr.
Qed.

Lemma full_iff q :
  0 < maxsize q →
  full q = true ↔ maxsize q ≤ Z.of_nat (length (items q)).
Proof. unfold full. intros H. destruct (maxsize q <=? 0) eqn:E; lia. Qed.

(** C9, amended: with at least one worker and a load factor of at least one
    the queue is created with capacity [N x L] and never holds more; no push
    is suspended below that; a push that meets [N x L] queued items is
    suspended (unless the window guard refuses it) and stays so until a
    worker dequeues, after which it goes through. *)
Theorem queue_capacity c s :
  1 ≤ num_workers c → 1 ≤ load_factor c → reachable c s →
  capacity_spec c s.
Proof.
  intros HN HL Hr. pose proof (reachable_wf _ _ Hr) as [_ [Hm Hb] _ _ _ _].
  assert (0 < num_workers c * load_factor c) as Hpos by nia.
  unfold capacity_spec. cbv zeta. rewrite <- Hm.
  split; [by rewrite Hm|]. split; [done|]. split; [apply Hb; lia|].
  split.
  { intros Hroom t1 t2 args s1 o He. step_cases He.
    all: try lia.
    all: split; [done|].
    all: first [ left; eexists; split; [done|]; split; [auto|done]
               | right; eexists; done ]. }
  intros Hfull.
  assert (full (queue s) = true) as Hf by (apply full_iff; lia).
  split; [|split].
  - intros t1 t2 args s1 o He. unfold exec in He.
    assert (∀ fut s0, push_before_put c t1 t2 s = Ok fut s0 → queue s0 = queue s ∧
              total_queued s0 = total_queued s ∧ putters s0 = putters s) as Hpe.
    { intros fut s0 Hp. py_unfold.
      repeat (first [ progress simplify_eq | progress sproj | case_match ]); done. }
    destruct (push_before_put c t1 t2 s) as [fut s0|e s0] eqn:Hp.
    + destruct (Hpe _ _ eq_refl) as (Hq & Ht & Hpu). rewrite Hq, Hf in He.
      simplify_eq. sproj. repeat split; try done. left. exists fut. by rewrite Hpu.
    + simplify_eq. clear Hpe. py_unfold.
      repeat (first [ progress simplify_eq | progress sproj | case_match ]);
        repeat split; auto.
  - intros j. unfold exec. rewrite Hf. by repeat case_match.
  - intros i s1 o j fut args He Hj.
    assert (full (queue s1) = false ∧ putters s1 = putters s) as [Hnf Hp].
    { step_cases He; sproj; split; try done.
      all: simpl in *; lia. }
    unfold exec. rewrite Hp, Hj, Hnf. unfold push_finish.
    destruct (push_after_put c fut args _) as [r s2|e s2] eqn:Hx; eexists _, _;
      (split; [done|]).
    all: py_unfold.
    all: repeat (first [ progress simplify_eq | progress sproj | case_match ]); done.
Qed.

Lemma queue_capacity_witness :
  1 ≤ num_workers pool_two ∧ 1 ≤ load_factor pool_two ∧
  reachable pool_two (init pool_two) ∧
  capacity_spec pool_two (init pool_two).
Proof.
  split; [simpl; lia|]. split; [simpl; lia|].
  split; [exact (reachable_init pool_two)|].
  apply (queue_capacity pool_two (init pool_two)); [simpl; lia..|].
  exact (reachable_init pool_two).
Defined.

(** The scenario of the back-pressure test: two workers, three pushes in a
    row; the third waits for a worker to dequeue. *)
Example backpressure_scenario :
  run pool_two [CallStart; CallPush 0 0 1; CallPush 0 0 2; CallPush 0 0 3;
                ResumePush 0%nat] (init pool_two) = None ∧
  snd <$> run pool_two [CallStart; CallPush 0 0 1; CallPush 0 0 2; CallPush 0 0 3;
                        WorkerGet 0%nat; ResumePush 0%nat] (init pool_two) =
  Some [StartReturned; PushReturned None; PushReturned None; PushSuspended;
        Tau; PushReturned None].
Proof. split; reflexivity. Qed.

(** ** Workers finishing an item *)

Section WorkerSteps.
Variable c : config.

(** What a well-formed state knows about a worker in the middle of a pass:
    [task_done] will not complain and the future it holds, if any, is held by
    nobody else and still pending. *)
Lemma running_facts s i future args :
  wf c s → worker_at i s = Some (Running future args) →
  (unfinished_tasks (queue s) <=? 0) = false ∧
  ∀ f, future = Some f → holders f s = 1%nat ∧ futures s !! f = Some Pending.
Proof.
  intros [Ht _ _ _ Hf _] Hw. unfold inv_tasks in Ht. use_workers.
  pose proof (sum_list_with_lookup running_w _ _ _ Hw) as Hr.
  split; [simpl in Hr; lia|]. intros f ->.
  pose proof (sum_list_with_lookup (worker_holds f) _ _ _ Hw) as Hh.
  simpl in Hh. rewrite decide_True in Hh by done.
  destruct (Hf f) as [H1 H2]. unfold holders, workers_list in *.
  rewrite Ews in *. simpl in *. split; [lia|]. apply H2. lia.
Qed.



End WorkerSteps.

Lemma busy_pool_reachable : reachable pool_futures busy_pool.
Proof.
  exists [CallStart; CallPush 0 0 7; WorkerGet 0%nat],
         [StartReturned; PushReturned (Some 0%nat); Tau].
  vm_compute. reflexivity.
Qed.

(** The scenario of the per-task timeout: the future of the item takes the
    timeout, the flag goes up and the worker is back at the queue. *)
Example task_timeout_scenario :
  ∃ s,
    run pool_futures
      [CallStart; CallPush 0 0 7; WorkerGet 0%nat;
       WorkerResume 0%nat (Raised AsyncioTimeoutError)] (init pool_futures) =
    Some (s, [StartReturned; PushReturned (Some 0%nat); Tau; Tau]) ∧
    futures s = [Failed AsyncioTimeoutError] ∧ exceptions s = true ∧
    workers s = Some [Waiting] ∧ logger s = [DebugNewJob 7] ∧
    active_workers s = 0.
Proof. eexists. split; [vm_compute; reflexivity|]. repeat split. Qed.

(** ** Schedules with callers that cancel *)

(** All the ways the event [H : exec_env c ev s = Some (s', o)] can have
    gone. *)
Ltac event_cases H :=
  unfold exec_env, exec, handed_out, future_cancel, worker_loop_get_raised
    in H;
  py_unfold;
  repeat (first [ progress simplify_eq | progress sproj | case_match ]).

Section CallerSteps.
Variable c : config.

Lemma run_env_app evs1 evs2 s :
  run_env c (evs1 ++ evs2) s =
  match run_env c evs1 s with
  | None => None
  | Some (s1, os1) =>
      match run_env c evs2 s1 with
      | None => None
      | Some (s2, os2) => Some (s2, os1 ++ os2)
      end
  end.
Proof.
  revert s. induction evs1 as [|ev evs1 IH]; intros s; simpl.
  - by destruct (run_env c evs2 s) as [[??]|].
  - destruct (exec_env c ev s) as [[s1 o]|]; [|done].
    rewrite IH. destruct (run_env c evs1 s1) as [[s2 os]|]; [|done].
    by destruct (run_env c evs2 s2) as [[??]|].
Qed.

Lemma run_env_steps ls s :
  run_env c (Step <$> ls) s = run c ls s.
Proof.
  revert s. induction ls as [|l ls IH]; intros s; simpl; [done|].
  destruct (exec c l s) as [[s1 o]|]; [|done]. by rewrite IH.
Qed.

Lemma reachable_env_init : reachable_env c (init c).
Proof. by exists [], []. Qed.

Lemma reachable_env_step ev s s' o :
  reachable_env c s → exec_env c ev s = Some (s', o) → reachable_env c s'.
Proof.
  intros (evs & os & Hr) He. exists (evs ++ [ev]), (os ++ [o]).
  rewrite run_env_app, Hr. simpl. by rewrite He.
Qed.

Lemma reachable_reachable_env s : reachable c s → reachable_env c s.
Proof.
  intros (ls & os & Hr). exists (Step <$> ls), os. by rewrite run_env_steps.
Qed.

Lemma run_env_invariant (P : state → Prop) :
  (∀ ev s s' o, P s → exec_env c ev s = Some (s', o) → P s') →
  ∀ evs s s' os, P s → run_env c evs s = Some (s', os) → P s'.
Proof.
  intros Hstep. induction evs as [|ev evs IH]; intros s s' os HP Hr;
    simpl in Hr.
  - by simplify_eq.
  - destruct (exec_env c ev s) as [[s1 o]|] eqn:He; [|done].
    destruct (run_env c evs s1) as [[s2 os']|] eqn:Hr'; simplify_eq.
    eapply IH; [|done]. eapply Hstep; done.
Qed.

Lemma inv_tasks_event ev s s' o :
  inv_tasks s → exec_env c ev s = Some (s', o) → inv_tasks s'.
Proof.
  intros I H. destruct ev as [l|f|i e]; [by eapply inv_tasks_step| |].
  all: event_cases H.
  all: unfold inv_tasks in *; use_workers; sums; try lia.
Qed.

Lemma inv_handles_event ev s s' o :
  inv_handles s → exec_env c ev s = Some (s', o) → inv_handles s'.
Proof.
  intros I H. destruct ev as [l|g|i e]; [destruct l| |].
  10: { event_cases H; try done.
        all: intros h; destruct (I h) as [I1 I2];
          unfold holders, workers_list in *.
        all: sproj; split; [done|]; intros Hh; specialize (I2 Hh).
        all: destruct (decide (g = h)) as [->|Hne];
          [right; apply list_lookup_insert_eq; by eapply lookup_lt_Some
          |by rewrite list_lookup_insert_ne]. }
  all: event_cases H.
  all: unfold inv_handles in *; use_workers; try done.
  all: intros h; pose proof (I h) as [I1 I2].
  all: sums; cbn [item_holds worker_holds] in *.
  all: repeat case_decide; simplify_eq.
  all: match type of I2 with
       | (1 ≤ ?X)%nat → _ =>
           destruct (decide (1 ≤ X)%nat) as [Hh|Hh]; [specialize (I2 Hh)|clear I2]
       end.
  all: try (destruct I2 as [I2|I2]; rewrite lookup_ge_None_2 in I2 by lia;
            discriminate I2).
  all: try (split; [lia|intros Hh'; try lia]).
  all: try done.
  all: try (left; by apply list_lookup_middle).
  all: try (destruct I2 as [I2|I2]; [left|right]).
  all: try (by apply lookup_app_l_Some).
  all: try (rewrite list_lookup_insert_ne by done; done).
Qed.

Lemma inv_handles_init : inv_handles (init c).
Proof. intros f. unfold holders. simpl. split; lia. Qed.


(** A worker in the middle of a pass: [task_done] will not complain, and
    the future it holds, if any, is held by nobody else and is pending or
    cancelled. *)
Lemma running_facts_env s i future args :
  inv_tasks s → inv_handles s →
  worker_at i s = Some (Running future args) →
  (unfinished_tasks (queue s) <=? 0) = false ∧
  ∀ f, future = Some f →
       holders f s = 1%nat ∧
       (futures s !! f = Some Pending ∨ futures s !! f = Some Cancelled).
Proof.
  intros Ht Hf Hw. unfold inv_tasks in Ht. use_workers.
  pose proof (sum_list_with_lookup running_w _ _ _ Hw) as Hr.
  split; [simpl in Hr; lia|]. intros f ->.
  pose proof (sum_list_with_lookup (worker_holds f) _ _ _ Hw) as Hh.
  simpl in Hh. rewrite decide_True in Hh by done.
  destruct (Hf f) as [H1 H2]. unfold holders, workers_list in *.
  rewrite Ews in *. simpl in *. split; [lia|]. apply H2. lia.
Qed.

End CallerSteps.

(** ** The sticky flag *)

Section Flag.
Variable c : config.



End Flag.


(** ** Workers finishing an item, whatever the callers did *)

(** The step of a worker coming back from the call, case by case. *)
Ltac resume_env He :=
  match type of He with
  | exec_env _ (Step (WorkerResume ?i _)) ?s = _ =>
      match goal with
      | Hw : worker_at i s = Some (Running ?fut ?args),
        Ht : inv_tasks s, Hh : inv_handles s |- _ =>
          let Hu := fresh "Hu" in
          let Hp := fresh "Hp" in
          destruct (running_facts_env s i fut args Ht Hh Hw) as [Hu Hp];
          unfold exec_env, exec in He; rewrite Hw in He; py_unfold; sproj;
          destruct fut as [?f|];
          [destruct (Hp _ eq_refl) as [?Hone [?Hpend|?Hpend]]|]; clear Hp;
          sproj; rewrite ?Hu in He;
          repeat (first [ progress simplify_eq | progress sproj
                        | rewrite Hu in *
                        | match goal with
                          | H : futures ?s !! ?f = Some _ |- _ =>
                              rewrite H in He
                          end
                        | case_match ])
      end
  end.


Section Handles.
Variable c : config.




(** A future that is not pending keeps its state whatever happens next. *)
Lemma resolved_stable ev s s' o f r :
  exec_env c ev s = Some (s', o) →
  futures s !! f = Some r → resolved r = true →
  futures s' !! f = Some r.
Proof.
  intros He Hf Hr. destruct ev as [l|g|i e]; [destruct l| |].
  all: event_cases He; try done.
  all: try (by apply lookup_app_l_Some).
  all: rewrite list_lookup_insert_ne; [done|].
  all: intros ->; by simplify_eq.
Qed.



End Handles.

(** ** Exceptions that end a worker *)

Section Endings.
Variable c : config.

Lemma cancelled_stable ev s s' o :
  exec_env c ev s = Some (s', o) →
  Cancelled ∈ futures s → Cancelled ∈ futures s'.
Proof.
  intros He (f & Hf)%list_elem_of_lookup.
  apply list_elem_of_lookup. exists f. by eapply resolved_stable.
Qed.

Lemma crash_event ev s s' o :
  inv_tasks s → inv_handles s →
  sum_list_with stray_crash_w (workers_list s) = 0%nat ∧
  ((1 ≤ sum_list_with state_crash_w (workers_list s))%nat →
   Cancelled ∈ futures s) →
  exec_env c ev s = Some (s', o) →
  sum_list_with stray_crash_w (workers_list s') = 0%nat ∧
  ((1 ≤ sum_list_with state_crash_w (workers_list s'))%nat →
   Cancelled ∈ futures s').
Proof.
  intros Ht Hh [I1 I2] He.
  assert (Cancelled ∈ futures s → Cancelled ∈ futures s') as Hc
    by (by eapply cancelled_stable).
  destruct ev as [l|g|i e]; [destruct l| |].
  9: { destruct (worker_at i s) as [[|fut args| |]|] eqn:Hw;
         try (unfold exec_env, exec in He; rewrite Hw in He; discriminate He).
       assert (∀ f, fut = Some f → futures s !! f = Some Cancelled →
                    Cancelled ∈ futures s) as Hcan.
       { intros f _ Hf. apply list_elem_of_lookup. by exists f. }
       resume_env He.
       all: unfold workers_list, set_worker in *; sproj; rewrite ?Ews in *.
       all: use_workers; sums; simpl in *.
       all: try match goal with
            | Hx : unrecoverable ?e = _ |- _ =>
                destruct e; simpl in *; try discriminate Hx
            end.
       all: split; [lia|intros Hn].
       all: first [ apply Hc, I2; lia | by eapply Hcan | apply I2; lia ]. }
  10: { destruct (worker_at i s) as [[| | |]|] eqn:Hw;
          try (unfold exec_env in He; rewrite Hw in He; discriminate He).
        event_cases He.
        all: unfold workers_list, set_worker in *; sproj.
        all: use_workers; sums; simpl in *.
        all: try match goal with
             | Hx : unrecoverable ?e = _ |- _ =>
                 destruct e; simpl in *; try discriminate Hx
             end.
        all: split; [lia|intros Hn; apply I2; lia]. }
  all: event_cases He.
  all: unfold workers_list, set_worker in *; sproj.
  all: use_workers; sums; simpl in *.
  all: try (split; [lia|intros Hn; first [apply Hc, I2; lia|apply I2; lia]]).
  exfalso. unfold inv_tasks in Ht. rewrite H2 in Ht. simpl in Ht. lia.
Qed.

(** X5: a worker task only ever ends with [KeyboardInterrupt], [MemoryError]
    or [SystemExit] (raised by the call it awaited or at the await of line
    62), or with the [InvalidStateError] of a future, and with that only when
    the caller of [push] has cancelled a future.  No other exception of
    [worker_co], no timeout and no [ValueError] of [task_done] ever leaves
    the worker loop. *)
Theorem workers_end_with s i e :
  reachable_env c s → worker_at i s = Some (Crashed e) →
  unrecoverable e = true ∨ e = InvalidStateError ∧ Cancelled ∈ futures s.
Proof.
  intros (evs & os & Hr) Hw.
  eapply (run_env_invariant c (λ s,
    (inv_tasks s ∧ inv_handles s) ∧
    sum_list_with stray_crash_w (workers_list s) = 0%nat ∧
    ((1 ≤ sum_list_with state_crash_w (workers_list s))%nat →
     Cancelled ∈ futures s))) in Hr as [_ [H0 H1]].
  - unfold workers_list in *. use_workers.
    pose proof (sum_list_with_lookup stray_crash_w _ _ _ Hw) as Hle.
    pose proof (sum_list_with_lookup state_crash_w _ _ _ Hw) as Hle'.
    destruct e; simpl in *; try lia; auto.
  - intros ev s1 s2 o [[It Ih] I] He. split.
    + split; [by eapply inv_tasks_event|by eapply inv_handles_event].
    + by eapply crash_event.
  - split; [split; [reflexivity|apply inv_handles_init]|].
    split; [done|]. simpl. lia.
Qed.

End Endings.

(** ** The properties above on a pool whose caller has cancelled a handle *)


Lemma cancelled_pool_done_reachable :
  reachable_env pool_futures cancelled_pool_done.
Proof.
  exists [Step CallStart; Step (CallPush 0 0 7); Step (WorkerGet 0%nat);
          CancelFuture 0%nat; Step (WorkerResume 0%nat (Returned 1))],
         [StartReturned; PushReturned (Some 0%nat); Tau; Tau;
          WorkerRaised 0 InvalidStateError].
  vm_compute. reflexivity.
Qed.

(** The scenario of the cancelled handle: the call returns, line 75 raises,
    the flag goes up, line 86 raises again and the worker is gone; the
    future stays cancelled and the [finally] block has run. *)
Example cancelled_handle_scenario :
  futures cancelled_pool = [Cancelled] ∧
  futures cancelled_pool_done = [Cancelled] ∧
  exceptions cancelled_pool_done = true ∧
  workers cancelled_pool_done = Some [Crashed InvalidStateError] ∧
  logger cancelled_pool_done = [DebugNewJob 7] ∧
  active_workers cancelled_pool_done = 0 ∧
  unfinished_tasks (queue cancelled_pool_done) = 0.
Proof. vm_compute. repeat split. Qed.

(** A [start] on a pool that is started fails its assertion and leaves the
    flag up. *)
Example refused_start_keeps_flag :
  ∃ s,
    run pool_one
      [CallStart; CallPush 0 0 7; WorkerGet 0%nat;
       WorkerResume 0%nat (Raised AsyncioTimeoutError); CallStart]
      (init pool_one) =
    Some (s, [StartReturned; PushReturned None; Tau; Tau;
              StartRaised AssertionError]) ∧
    exceptions s = true.
Proof. eexists. split; [vm_compute; reflexivity|]. reflexivity. Qed.









Lemma workers_end_with_witness :
  reachable_env pool_futures cancelled_pool_done ∧
  worker_at 0 cancelled_pool_done = Some (Crashed InvalidStateError) ∧
  (unrecoverable InvalidStateError = true ∨
   InvalidStateError = InvalidStateError ∧
   Cancelled ∈ futures cancelled_pool_done).
Proof.
  split; [exact cancelled_pool_done_reachable|].
  split; [vm_compute; reflexivity|].
  apply (workers_end_with pool_futures cancelled_pool_done 0%nat
           InvalidStateError);
    [exact cancelled_pool_done_reachable|vm_compute; reflexivity].
Defined.

(** ** The termination protocol *)





Section Join.
Variable c : config.




End Join.



(** A start, two items and a join on two workers, run to the end. *)
Example join_scenario :
  ∃ s,
    run pool_two
      [CallStart; CallPush 0 0 1; CallPush 0 0 2; CallJoin;
       WorkerGet 0%nat; WorkerGet 1%nat; JoinPut; JoinPut;
       WorkerResume 1%nat (Returned 20); WorkerResume 0%nat (Returned 10);
       WorkerGet 1%nat; WorkerGet 0%nat; GatherDone] (init pool_two) =
    Some (s, [StartReturned; PushReturned None; PushReturned None; Tau;
              Tau; Tau; Tau; Tau; Tau; Tau; Tau; Tau; JoinReturned]) ∧
    workers s = None ∧ items (queue s) = [] ∧
    unfinished_tasks (queue s) = 0 ∧ exceptions s = false ∧
    total_queued s = 2.
Proof. eexists. split; [vm_compute; reflexivity|]. repeat split. Qed.

(** * Further properties of the pool *)

(** ** Worker steps in well-formed states *)

Lemma get_step c s i x l s' o :
  wf c s → worker_at i s = Some Waiting → items (queue s) = x :: l →
  exec c (WorkerGet i) s = Some (s', o) →
  o = Tau ∧ workers s' = (<[i := took x]>) <$> workers s ∧
  items (queue s') = l ∧ maxsize (queue s') = maxsize (queue s) ∧
  putters s' = putters s ∧ joiner s' = joiner s ∧ futures s' = futures s ∧
  exceptions s' = exceptions s ∧ total_queued s' = total_queued s ∧
  logger s' = logger s ∧ first_push_dt s' = first_push_dt s.
Proof.
  intros Hwf Hw Hq He. pose proof (wf_tasks _ _ Hwf) as Ht.
  unfold inv_tasks in Ht. rewrite Hq in Ht. simpl in Ht.
  assert ((unfinished_tasks (queue s) <=? 0) = false) as Hu by lia.
  unfold exec in He. rewrite Hw in He. py_unfold. rewrite Hq in He. sproj.
  destruct x; sproj; rewrite ?Hu in He; simplify_eq; sproj; done.
Qed.

Lemma resume_step c s i future args o s' ob :
  wf c s → worker_at i s = Some (Running future args) →
  exec c (WorkerResume i o) s = Some (s', ob) →
  ob = match resumed o with Crashed e => WorkerRaised i e | _ => Tau end ∧
  workers s' = (<[i := resumed o]>) <$> workers s ∧
  items (queue s') = items (queue s) ∧ maxsize (queue s') = maxsize (queue s) ∧
  putters s' = putters s ∧ joiner s' = joiner s ∧
  total_queued s' = total_queued s ∧ first_push_dt s' = first_push_dt s ∧
  active_workers s' = active_workers s - 1.
Proof.
  intros Hwf Hw He.
  destruct (running_facts c s i future args Hwf Hw) as [Hu Hp].
  unfold exec in He. rewrite Hw in He. py_unfold. sproj.
  destruct future as [f|]; [destruct (Hp f eq_refl) as [_ Hpend]|]; clear Hp.
  all: destruct o as [v|e]; [|destruct (unrecoverable e) eqn:Hx]; simpl.
  all: rewrite ?Hx; sproj.
  all: repeat (first [ progress simplify_eq | progress sproj
                     | rewrite Hu in He | rewrite Hpend in He
                     | rewrite Hx in He ]).
  all: done.
Qed.

(** ** Counting submissions *)

Section Counting.
Variable c : config.

Lemma total_queued_step l s s' o :
  exec c l s = Some (s', o) →
  total_queued s' = total_queued s + Z.of_nat (put_w o).
Proof.
  intros He. destruct l; step_cases He; simpl; lia.
Qed.

Lemma total_queued_run ls : ∀ s s' os,
  run c ls s = Some (s', os) →
  total_queued s' = total_queued s + Z.of_nat (sum_list_with put_w os).
Proof.
  induction ls as [|l ls IH]; intros s s' os Hr; simpl in Hr.
  - simplify_eq. simpl. lia.
  - destruct (exec c l s) as [[s1 o]|] eqn:He; [|done].
    destruct (run c ls s1) as [[s2 os']|] eqn:Hr'; simplify_eq.
    rewrite (IH _ _ _ Hr'), (total_queued_step _ _ _ _ He). simpl. lia.
Qed.

(** X1: [total_queued] is the number of pushes whose put went through, over
    the whole life of the pool: refused and still suspended pushes do not
    count, starts and joins do not reset it, and a push that fails on the
    [log_every_n] test after its put does count. *)
Theorem total_queued_counts_puts ls s os :
  run c ls (init c) = Some (s, os) →
  total_queued s = Z.of_nat (sum_list_with put_w os).
Proof. intros Hr. by rewrite (total_queued_run _ _ _ _ Hr). Qed.

(** The cadence test of line 140 against the number of records so far. *)
Lemma cadence_arith n t :
  1 ≤ n → 0 ≤ t →
  (t + 1) / n = t / n + (if (t + 1) mod n =? 0 then 1 else 0).
Proof.
  intros Hn Ht. destruct ((t + 1) mod n =? 0) eqn:E.
  - apply Z.eqb_eq in E. apply Z.mod_divide in E as [q Hq]; [|lia].
    rewrite Hq, Z.div_mul by lia.
    assert (t = (q - 1) * n + (n - 1)) as Ht' by lia.
    rewrite Ht' at 1. rewrite Z.div_add_l by lia.
    rewrite Z.div_small by lia. lia.
  - apply Z.eqb_neq in E. rewrite Z.add_0_r.
    pose proof (Z.div_mod t n ltac:(lia)) as H1.
    pose proof (Z.mod_pos_bound t n ltac:(lia)) as H2.
    assert (t mod n ≠ n - 1) as Hne.
    { intros Heq. apply E.
      replace (t + 1) with ((t / n + 1) * n) by lia.
      apply Z.mod_mul. lia. }
    symmetry. apply (Z.div_unique_pos _ _ _ (t mod n + 1)); lia.
Qed.

Lemma cadence_step n l s s' o :
  log_every_n c = Some n → 1 ≤ n → 0 ≤ total_queued s →
  Z.of_nat (sum_list_with pushed_w (logger s)) = total_queued s / n →
  exec c l s = Some (s', o) →
  Z.of_nat (sum_list_with pushed_w (logger s')) = total_queued s' / n.
Proof.
  intros Hn Hpos Ht I He.
  pose proof (cadence_arith n (total_queued s) Hpos Ht) as Har.
  destruct l; unfold exec in He; py_unfold; rewrite ?Hn in He;
    repeat (first [ progress simplify_eq | progress sproj | case_match ]).
  all: rewrite ?sum_list_with_app; cbn [sum_list_with pushed_w]; try lia.
Qed.

Lemma cadence_records_step n l s s' o :
  log_every_n c = Some n →
  (∀ t e, InfoPushed t e ∈ logger s → t mod n = 0 ∧ e = expected_total c) →
  exec c l s = Some (s', o) →
  ∀ t e, InfoPushed t e ∈ logger s' → t mod n = 0 ∧ e = expected_total c.
Proof.
  intros Hn I He t e.
  destruct l; unfold exec in He; py_unfold; rewrite ?Hn in He;
    repeat (first [ progress simplify_eq | progress sproj | case_match ]).
  all: rewrite ?elem_of_app, ?list_elem_of_singleton; try apply I.
  all: intros Hin; destruct_or?; simplify_eq; try (by apply I).
  all: split; [lia|done].
Qed.

(** X2: with a cadence [log_every_n = n >= 1] the logger has been told
    "pushed ..." exactly [total_queued / n] times, each time with a total that
    is a multiple of [n] and with [expected_total]. *)
Theorem push_log_cadence n s :
  log_every_n c = Some n → 1 ≤ n → reachable c s →
  Z.of_nat (sum_list_with pushed_w (logger s)) = total_queued s / n ∧
  ∀ t e, InfoPushed t e ∈ logger s → t mod n = 0 ∧ e = expected_total c.
Proof.
  intros Hn Hpos (ls & os & Hr).
  eapply (run_invariant c (λ s,
    (0 ≤ total_queued s ∧
     Z.of_nat (sum_list_with pushed_w (logger s)) = total_queued s / n) ∧
    ∀ t e, InfoPushed t e ∈ logger s → t mod n = 0 ∧ e = expected_total c))
    in Hr as [[_ H1] H2]; [done| |].
  - intros l s1 s2 o [[H0 H1] H2] He. split; [split|].
    + rewrite (total_queued_step _ _ _ _ He). lia.
    + by eapply cadence_step.
    + by eapply cadence_records_step.
  - simpl. split; [split; [lia|done]|]. intros t e H. by apply elem_of_nil in H.
Qed.

(** X3: with [log_every_n = 0] no push ever returns: as soon as its put has
    gone through, the test of line 140 divides by zero.  The item is in the
    queue and counted all the same, so it will be run, but the caller never
    sees its future. *)
Theorem push_zero_cadence l s s' o :
  log_every_n c = Some 0 →
  exec c l s = Some (s', o) →
  (∀ r, o ≠ PushReturned r) ∧
  (o = PushRaised ZeroDivisionError →
   ∃ future args,
     items (queue s') = items (queue s) ++ [Work future args] ∧
     total_queued s' = total_queued s + 1 ∧
     unfinished_tasks (queue s') = unfinished_tasks (queue s) + 1).
Proof.
  intros Hn He.
  destruct l; unfold exec in He; py_unfold; rewrite ?Hn in He;
    repeat (first [ progress simplify_eq | progress sproj | case_match ]).
  all: split; [done|]; intros; simplify_eq.
  all: by eexists _, _.
Qed.

End Counting.

(** ** The timestamp of the first push *)

Section Lifetime.
Variable c : config.

Lemma first_push_dt_step l s s' o :
  exec c l s = Some (s', o) →
  first_push_dt s' =
  match first_push_dt s with
  | Some t => Some t
  | None => first_push_reading [l]
  end.
Proof.
  intros He. destruct l; step_cases He; simpl; try done.
  all: by destruct (first_push_dt _).
Qed.

Lemma first_push_dt_run ls : ∀ s s' os,
  run c ls s = Some (s', os) →
  first_push_dt s' =
  match first_push_dt s with
  | Some t => Some t
  | None => first_push_reading ls
  end.
Proof.
  induction ls as [|l ls IH]; intros s s' os Hr; simpl in Hr.
  - simplify_eq. by destruct (first_push_dt s').
  - destruct (exec c l s) as [[s1 o]|] eqn:He; [|done].
    destruct (run c ls s1) as [[s2 os']|] eqn:Hr'; simplify_eq.
    rewrite (IH _ _ _ Hr'), (first_push_dt_step _ _ _ _ He).
    destruct (first_push_dt s); [done|]. by destruct l.
Qed.

(** X4: the timestamp of the first push is the clock reading taken by the
    first call of [push] in the life of the pool, whether that call was
    accepted, suspended or refused; no later push, start or join changes or
    clears it. *)
Theorem first_push_dt_is_first_reading ls s os :
  run c ls (init c) = Some (s, os) →
  first_push_dt s = first_push_reading ls ∧
  ∀ l s' o, exec c l s = Some (s', o) →
    ∀ t, first_push_dt s = Some t → first_push_dt s' = Some t.
Proof.
  intros Hr. split; [by rewrite (first_push_dt_run _ _ _ _ Hr)|].
  intros l s' o He t Ht. by rewrite (first_push_dt_step _ _ _ _ He), Ht.
Qed.

End Lifetime.

(** ** What ends a worker *)

Section Crashes.
Variable c : config.

(** X6: [task_done] bookkeeping is exact: the queue's count of unfinished
    tasks is always the number of queued items plus the number of workers in
    the middle of an item, so every [task_done] has its [get] and the count
    is back at zero once the queue is empty and the workers idle. *)
Theorem unfinished_tasks_exact s :
  reachable c s →
  unfinished_tasks (queue s) =
    Z.of_nat (length (items (queue s)) + n_running s) ∧
  (items (queue s) = [] → n_running s = 0%nat →
   unfinished_tasks (queue s) = 0).
Proof.
  intros Hr. pose proof (wf_tasks _ _ (reachable_wf _ _ Hr)) as Ht.
  unfold inv_tasks in Ht. split; [done|]. intros Hq Hn.
  rewrite Ht, Hq, Hn. done.
Qed.

Lemma running_le_length ws :
  (sum_list_with running_w ws ≤ length ws)%nat.
Proof. induction ws as [|[] ws IH]; simpl; lia. Qed.

(** X7: [has_open_workers] errs on one side only: when it answers [False]
    every one of the [num_workers] workers is in the middle of an item.  With
    [num_workers >= 0], [get_available_workers] is never negative and is
    positive exactly when [has_open_workers] answers [True]. *)
Theorem open_workers_sound s :
  reachable c s →
  (has_open_workers c s = false → n_running s = Z.to_nat (num_workers c)) ∧
  (0 ≤ num_workers c → 0 ≤ get_available_workers c s) ∧
  (has_open_workers c s = true ↔ 0 < get_available_workers c s).
Proof.
  intros [_ _ Hw Ha _ _]%reachable_wf.
  unfold has_open_workers, get_available_workers, inv_active, inv_width,
    n_running, workers_list in *.
  destruct (workers s) as [ws|]; simpl in *.
  - specialize (Hw _ eq_refl). pose proof (running_le_length ws).
    repeat split; intros; lia.
  - repeat split; intros; lia.
Qed.

End Crashes.

(** ** Pools that cannot be used again *)

Section Broken.
Variable c : config.

Lemma crashed_step l s s' o :
  (1 ≤ n_crashed s)%nat → exec c l s = Some (s', o) →
  (1 ≤ n_crashed s')%nat ∧ o ≠ StartReturned ∧ o ≠ JoinReturned.
Proof.
  intros I He. unfold n_crashed, workers_list in *.
  destruct l; step_cases He; use_workers; sums.
  all: try (simpl in *; lia).
  all: repeat split; try done; try lia.
Qed.

(** X8: a worker that has died of an unrecoverable signal stays in the worker
    set for good: from then on no [start] and no [join] ever returns
    normally, and [start] fails its assertion. *)
Theorem pool_broken_after_crash ls s s' os :
  (1 ≤ n_crashed s)%nat → run c ls s = Some (s', os) →
  (1 ≤ n_crashed s')%nat ∧
  (StartReturned ∉ os) ∧ (JoinReturned ∉ os) ∧
  exec c CallStart s' = Some (s', StartRaised AssertionError).
Proof.
  revert s s' os. induction ls as [|l ls IH]; intros s s' os Hc Hr; simpl in Hr.
  - simplify_eq. repeat split; [done|by intros ?%elem_of_nil..|].
    unfold exec. py_unfold. unfold n_crashed, workers_list in Hc.
    destruct (workers s'); [done|simpl in Hc; lia].
  - destruct (exec c l s) as [[s1 o]|] eqn:He; [|done].
    destruct (run c ls s1) as [[s2 os']|] eqn:Hr'; simplify_eq.
    destruct (crashed_step _ _ _ _ Hc He) as (Hc1 & Ho1 & Ho2).
    destruct (IH _ _ _ Hc1 Hr') as (? & ? & ? & ?).
    repeat split; try done; intros [?|?]%elem_of_cons; done.
Qed.

Lemma no_workers_step l s s' o :
  num_workers c = 0 →
  maxsize (queue s) = 0 ∧ joiner s = None ∧ putters s = [] ∧
  (workers s = None ∨ workers s = Some []) ∧
  Z.of_nat (length (items (queue s))) = total_queued s →
  exec c l s = Some (s', o) →
  (maxsize (queue s') = 0 ∧ joiner s' = None ∧ putters s' = [] ∧
   (workers s' = None ∨ workers s' = Some []) ∧
   Z.of_nat (length (items (queue s'))) = total_queued s') ∧
  (workers s = Some [] → workers s' = Some []) ∧
  o ≠ PushSuspended.
Proof.
  intros HN (Hm & Hj & Hp & Hw & Hl) He.
  destruct l; unfold exec in He; py_unfold; rewrite ?Hm, ?Hj, ?Hp, ?HN in He.
  all: destruct Hw as [Hw|Hw]; unfold worker_at in He; rewrite ?Hw in He.
  all: repeat (first [ progress simplify_eq | progress sproj
                     | progress (simpl in He) | case_match ]).
  all: rewrite ?Hm, ?HN, ?length_app; simpl.
  all: repeat split; auto; try lia; try congruence.
Qed.

(** X9: a pool created with [num_workers = 0] never consumes anything: its
    queue is unbounded, so no push is ever suspended and every counted item
    stays queued; [join] is always a no-op; and once started the pool stays
    started, so a second [start] fails its assertion. *)
Theorem pool_without_workers s :
  num_workers c = 0 → reachable c s →
  putters s = [] ∧
  Z.of_nat (length (items (queue s))) = total_queued s ∧
  exec c CallJoin s = Some (s, JoinReturned) ∧
  (∀ i, exec c (WorkerGet i) s = None) ∧
  (workers s = Some [] →
   exec c CallStart s = Some (s, StartRaised AssertionError) ∧
   ∀ l s' o, exec c l s = Some (s', o) → workers s' = Some []).
Proof.
  intros HN (ls & os & Hr).
  eapply (run_invariant c (λ s,
    maxsize (queue s) = 0 ∧ joiner s = None ∧ putters s = [] ∧
    (workers s = None ∨ workers s = Some []) ∧
    Z.of_nat (length (items (queue s))) = total_queued s)) in Hr as I.
  - pose proof I as (Hm & Hj & Hp & Hw & Hl).
    split; [done|]. split; [done|]. split; [|split].
    + unfold exec. rewrite Hj. py_unfold. by destruct Hw as [->| ->].
    + intros i. unfold exec, worker_at. by destruct Hw as [->| ->].
    + intros Hs. split; [unfold exec; py_unfold; by rewrite Hs|].
      intros l s' o He. by destruct (no_workers_step _ _ _ _ HN I He) as (_ & H1 & _); auto.
  - intros l s1 s2 o I He. by destruct (no_workers_step _ _ _ _ HN I He).
  - simpl. rewrite HN. repeat split; auto.
Qed.

End Broken.

(** ** Order of service *)

Section Order.
Variable c : config.

(** X10: the queue is served in the order of arrival.  A step either leaves
    the queued items alone, or puts one item behind them (the item of the
    push, the item of the resumed put, a marker of [join]), or is a waiting
    worker taking the front item and nothing else: it then runs that very
    item, or retires if it is a marker. *)
Theorem queue_served_in_order l s s' o :
  reachable c s → exec c l s = Some (s', o) →
  items (queue s') = items (queue s) ∨
  (∃ x, items (queue s') = items (queue s) ++ [x] ∧
        match l with
        | CallPush _ _ args => ∃ future, x = Work future args
        | ResumePush j => putters s !! j = Some x
        | JoinPut => x = Terminator
        | _ => False
        end) ∨
  (∃ i x, l = WorkerGet i ∧ worker_at i s = Some Waiting ∧
          items (queue s) = x :: items (queue s') ∧
          worker_at i s' = Some (took x)).
Proof.
  intros Hwf%reachable_wf He. destruct l.
  8: { destruct (worker_at i s) as [[]|] eqn:Hw;
         try (unfold exec in He; rewrite Hw in He; discriminate He).
       destruct (items (queue s)) as [|x l] eqn:Hq;
         [unfold exec in He; rewrite Hw in He; py_unfold;
          rewrite Hq in He; discriminate He|].
       destruct (get_step _ _ _ _ _ _ _ Hwf Hw Hq He) as (_ & Hws & Hi & _).
       right. right. exists i, x. rewrite Hi.
       split; [done|]. split; [done|]. split; [done|].
       unfold worker_at in *. rewrite Hws.
       destruct (workers s) as [ws|]; [|done]. simpl in *.
       apply list_lookup_insert_eq. by eapply lookup_lt_Some. }
  8: { destruct (worker_at i s) as [[|fut args| |]|] eqn:Hw;
         try (unfold exec in He; rewrite Hw in He; discriminate He).
       destruct (resume_step _ _ _ _ _ _ _ _ Hwf Hw He) as (_ & _ & Hi & _).
       by left. }
  all: step_cases He; eauto.
  all: right; left; eexists; split; [done|]; eauto.
Qed.

End Order.

(** ** The window guard with a [timedelta] *)

(** X11: with [job_accept_duration] given as a [timedelta], [push] is refused
    with [TimeoutError] exactly when the reading taken for the check is more
    than the window after the stored timestamp of the first push; an elapsed
    time of exactly the window is still accepted.  A refused push creates no
    future, queues and counts nothing and logs nothing. *)
Theorem window_guard_timedelta c w s t_first t_check args s' o :
  job_accept_duration c = Some (PyTimedelta w) →
  exec c (CallPush t_first t_check args) s = Some (s', o) →
  (o = PushRaised TimeoutError ↔
   w < t_check - default t_first (first_push_dt s)) ∧
  (o = PushRaised TimeoutError →
   first_push_dt s' = Some (default t_first (first_push_dt s)) ∧
   queue s' = queue s ∧ putters s' = putters s ∧ futures s' = futures s ∧
   total_queued s' = total_queued s ∧ logger s' = logger s ∧
   workers s' = workers s ∧ exceptions s' = exceptions s).
Proof.
  intros Hw He. unfold exec in He. py_unfold. rewrite Hw in He.
  destruct (first_push_dt s) as [t0|] eqn:Hf; sproj; rewrite ?Hf in He;
    simpl in *.
  all: repeat (first [ progress simplify_eq | progress sproj | case_match ]).
  all: split; [split; [intros; simplify_eq; lia|intros; try done; lia]|].
  all: intros; simplify_eq; sproj; rewrite ?Hf; done.
Qed.

(** ** The properties above at concrete pools *)

Lemma total_queued_counts_puts_witness :
  run pool_one [CallStart; CallPush 0 0 7; CallPush 0 0 8] (init pool_one) =
  Some (state_of pool_one [CallStart; CallPush 0 0 7; CallPush 0 0 8],
        [StartReturned; PushReturned None; PushSuspended]) ∧
  total_queued (state_of pool_one [CallStart; CallPush 0 0 7; CallPush 0 0 8]) =
  Z.of_nat (sum_list_with put_w
              [StartReturned; PushReturned None; PushSuspended]).
Proof.
  split; [vm_compute; reflexivity|].
  apply (total_queued_counts_puts pool_one
           [CallStart; CallPush 0 0 7; CallPush 0 0 8]
           (state_of pool_one [CallStart; CallPush 0 0 7; CallPush 0 0 8])
           [StartReturned; PushReturned None; PushSuspended]).
  vm_compute. reflexivity.
Defined.

Lemma cadence_pool_reachable : reachable pool_cadence cadence_pool.
Proof.
  exists [CallStart; CallPush 0 0 1; CallPush 0 0 2; CallPush 0 0 3],
         [StartReturned; PushReturned None; PushReturned None;
          PushReturned None].
  vm_compute. reflexivity.
Qed.

Lemma push_log_cadence_witness :
  log_every_n pool_cadence = Some 2 ∧ 1 ≤ 2 ∧
  reachable pool_cadence cadence_pool ∧
  Z.of_nat (sum_list_with pushed_w (logger cadence_pool)) =
    total_queued cadence_pool / 2 ∧
  ∀ t e, InfoPushed t e ∈ logger cadence_pool →
         t mod 2 = 0 ∧ e = expected_total pool_cadence.
Proof.
  split; [reflexivity|]. split; [lia|].
  split; [exact cadence_pool_reachable|].
  apply (push_log_cadence pool_cadence 2 cadence_pool);
    [reflexivity|lia|exact cadence_pool_reachable].
Defined.

Lemma push_zero_cadence_witness :
  log_every_n pool_zero_cadence = Some 0 ∧
  exec pool_zero_cadence (CallPush 0 0 7)
       (state_of pool_zero_cadence [CallStart]) =
  Some (state_of pool_zero_cadence [CallStart; CallPush 0 0 7],
        PushRaised ZeroDivisionError) ∧
  (∀ r, PushRaised ZeroDivisionError ≠ PushReturned r) ∧
  (PushRaised ZeroDivisionError = PushRaised ZeroDivisionError →
   ∃ future args,
     items (queue (state_of pool_zero_cadence [CallStart; CallPush 0 0 7])) =
       items (queue (state_of pool_zero_cadence [CallStart]))
       ++ [Work future args] ∧
     total_queued (state_of pool_zero_cadence [CallStart; CallPush 0 0 7]) =
       total_queued (state_of pool_zero_cadence [CallStart]) + 1 ∧
     unfinished_tasks
       (queue (state_of pool_zero_cadence [CallStart; CallPush 0 0 7])) =
       unfinished_tasks (queue (state_of pool_zero_cadence [CallStart])) + 1).
Proof.
  split; [reflexivity|]. split; [vm_compute; reflexivity|].
  apply (push_zero_cadence pool_zero_cadence (CallPush 0 0 7)
           (state_of pool_zero_cadence [CallStart])
           (state_of pool_zero_cadence [CallStart; CallPush 0 0 7])
           (PushRaised ZeroDivisionError));
    [reflexivity|vm_compute; reflexivity].
Defined.

Lemma first_push_dt_is_first_reading_witness :
  run pool_one [CallStart; CallPush 5 5 7; CallPush 9 9 8] (init pool_one) =
  Some (state_of pool_one [CallStart; CallPush 5 5 7; CallPush 9 9 8],
        [StartReturned; PushReturned None; PushSuspended]) ∧
  first_push_dt (state_of pool_one [CallStart; CallPush 5 5 7; CallPush 9 9 8])
    = first_push_reading [CallStart; CallPush 5 5 7; CallPush 9 9 8] ∧
  ∀ l s' o,
    exec pool_one l
         (state_of pool_one [CallStart; CallPush 5 5 7; CallPush 9 9 8])
      = Some (s', o) →
    ∀ t, first_push_dt
           (state_of pool_one [CallStart; CallPush 5 5 7; CallPush 9 9 8])
           = Some t →
         first_push_dt s' = Some t.
Proof.
  split; [vm_compute; reflexivity|].
  apply (first_push_dt_is_first_reading pool_one
           [CallStart; CallPush 5 5 7; CallPush 9 9 8]
           (state_of pool_one [CallStart; CallPush 5 5 7; CallPush 9 9 8])
           [StartReturned; PushReturned None; PushSuspended]).
  vm_compute. reflexivity.
Defined.

Lemma unfinished_tasks_exact_witness :
  reachable pool_futures busy_pool ∧
  unfinished_tasks (queue busy_pool) =
    Z.of_nat (length (items (queue busy_pool)) + n_running busy_pool) ∧
  (items (queue busy_pool) = [] → n_running busy_pool = 0%nat →
   unfinished_tasks (queue busy_pool) = 0).
Proof.
  split; [exact busy_pool_reachable|].
  apply (unfinished_tasks_exact pool_futures busy_pool).
  exact busy_pool_reachable.
Defined.

Lemma open_workers_sound_witness :
  reachable pool_futures busy_pool ∧
  (has_open_workers pool_futures busy_pool = false →
   n_running busy_pool = Z.to_nat (num_workers pool_futures)) ∧
  (0 ≤ num_workers pool_futures →
   0 ≤ get_available_workers pool_futures busy_pool) ∧
  (has_open_workers pool_futures busy_pool = true ↔
   0 < get_available_workers pool_futures busy_pool).
Proof.
  split; [exact busy_pool_reachable|].
  apply (open_workers_sound pool_futures busy_pool).
  exact busy_pool_reachable.
Defined.

Lemma pool_broken_after_crash_witness :
  (1 ≤ n_crashed crashed_pool)%nat ∧
  run pool_futures [CallJoin; JoinPut; GatherRaise 0%nat; CallStart]
      crashed_pool =
  Some (crashed_pool_retried,
        [Tau; Tau; JoinRaised MemoryError; StartRaised AssertionError]) ∧
  (1 ≤ n_crashed crashed_pool_retried)%nat ∧
  (StartReturned ∉
     [Tau; Tau; JoinRaised MemoryError; StartRaised AssertionError]) ∧
  (JoinReturned ∉
     [Tau; Tau; JoinRaised MemoryError; StartRaised AssertionError]) ∧
  exec pool_futures CallStart crashed_pool_retried =
  Some (crashed_pool_retried, StartRaised AssertionError).
Proof.
  split; [vm_compute; lia|]. split; [vm_compute; reflexivity|].
  apply (pool_broken_after_crash pool_futures
           [CallJoin; JoinPut; GatherRaise 0%nat; CallStart] crashed_pool);
    [vm_compute; lia|vm_compute; reflexivity].
Defined.

Lemma idle_pool_reachable : reachable pool_no_workers idle_pool.
Proof.
  exists [CallStart; CallPush 0 0 7], [StartReturned; PushReturned None].
  vm_compute. reflexivity.
Qed.

Lemma pool_without_workers_witness :
  num_workers pool_no_workers = 0 ∧
  reachable pool_no_workers idle_pool ∧
  putters idle_pool = [] ∧
  Z.of_nat (length (items (queue idle_pool))) = total_queued idle_pool ∧
  exec pool_no_workers CallJoin idle_pool = Some (idle_pool, JoinReturned) ∧
  (∀ i, exec pool_no_workers (WorkerGet i) idle_pool = None) ∧
  (workers idle_pool = Some [] →
   exec pool_no_workers CallStart idle_pool
     = Some (idle_pool, StartRaised AssertionError) ∧
   ∀ l s' o, exec pool_no_workers l idle_pool = Some (s', o) →
             workers s' = Some []).
Proof.
  split; [reflexivity|]. split; [exact idle_pool_reachable|].
  apply (pool_without_workers pool_no_workers idle_pool);
    [reflexivity|exact idle_pool_reachable].
Defined.

Lemma queue_served_in_order_witness :
  reachable pool_futures busy_pool ∧
  exec pool_futures (WorkerResume 0%nat (Returned 1)) busy_pool =
  Some (state_of pool_futures
          [CallStart; CallPush 0 0 7; WorkerGet 0%nat;
           WorkerResume 0%nat (Returned 1)], Tau) ∧
  (items (queue (state_of pool_futures
                   [CallStart; CallPush 0 0 7; WorkerGet 0%nat;
                    WorkerResume 0%nat (Returned 1)]))
     = items (queue busy_pool) ∨
   (∃ x, items (queue (state_of pool_futures
                         [CallStart; CallPush 0 0 7; WorkerGet 0%nat;
                          WorkerResume 0%nat (Returned 1)]))
           = items (queue busy_pool) ++ [x] ∧ False) ∨
   (∃ i x, WorkerResume 0%nat (Returned 1) = WorkerGet i ∧
           worker_at i busy_pool = Some Waiting ∧
           items (queue busy_pool)
             = x :: items (queue (state_of pool_futures
                                    [CallStart; CallPush 0 0 7;
                                     WorkerGet 0%nat;
                                     WorkerResume 0%nat (Returned 1)])) ∧
           worker_at i (state_of pool_futures
                          [CallStart; CallPush 0 0 7; WorkerGet 0%nat;
                           WorkerResume 0%nat (Returned 1)])
             = Some (took x))).
Proof.
  split; [exact busy_pool_reachable|]. split; [vm_compute; reflexivity|].
  apply (queue_served_in_order pool_futures (WorkerResume 0%nat (Returned 1))
           busy_pool
           (state_of pool_futures
              [CallStart; CallPush 0 0 7; WorkerGet 0%nat;
               WorkerResume 0%nat (Returned 1)]) Tau);
    [exact busy_pool_reachable|vm_compute; reflexivity].
Defined.

Lemma window_guard_timedelta_witness :
  job_accept_duration pool_zero_window = Some (PyTimedelta 0) ∧
  exec pool_zero_window (CallPush 0 1 7) (init pool_zero_window) =
  Some (state_of pool_zero_window [CallPush 0 1 7],
        PushRaised TimeoutError) ∧
  (PushRaised TimeoutError = PushRaised TimeoutError ↔
   0 < 1 - default 0 (first_push_dt (init pool_zero_window))) ∧
  (PushRaised TimeoutError = PushRaised TimeoutError →
   first_push_dt (state_of pool_zero_window [CallPush 0 1 7])
     = Some (default 0 (first_push_dt (init pool_zero_window))) ∧
   queue (state_of pool_zero_window [CallPush 0 1 7])
     = queue (init pool_zero_window) ∧
   putters (state_of pool_zero_window [CallPush 0 1 7])
     = putters (init pool_zero_window) ∧
   futures (state_of pool_zero_window [CallPush 0 1 7])
     = futures (init pool_zero_window) ∧
   total_queued (state_of pool_zero_window [CallPush 0 1 7])
     = total_queued (init pool_zero_window) ∧
   logger (state_of pool_zero_window [CallPush 0 1 7])
     = logger (init pool_zero_window) ∧
   workers (state_of pool_zero_window [CallPush 0 1 7])
     = workers (init pool_zero_window) ∧
   exceptions (state_of pool_zero_window [CallPush 0 1 7])
     = exceptions (init pool_zero_window)).
Proof.
  split; [reflexivity|]. split; [vm_compute; reflexivity|].
  apply (window_guard_timedelta pool_zero_window 0 (init pool_zero_window)
           0 1 7 (state_of pool_zero_window [CallPush 0 1 7])
           (PushRaised TimeoutError));
    [reflexivity|vm_compute; reflexivity].
Defined.

(** * Properties of a download *)

(** ** Download: the status messages *)

Lemma progress_message_lookup_id self_id data :
  Download.progress_message self_id data !! "id" = Some (Download.VStr self_id).
Proof.
  unfold Download.progress_message.
  rewrite lookup_union_r; [apply lookup_singleton_eq|].
  apply map_lookup_filter_None. right. intros x _ Hin.
  revert Hin. simpl. vm_compute. intros Hin.
  repeat (apply elem_of_cons in Hin as [Hin|Hin]; [discriminate Hin|]).
  by apply elem_of_nil in Hin.
Qed.

Lemma progress_message_lookup self_id data k :
  k ≠ "id" →
  Download.progress_message self_id data !! k =
  if bool_decide (k ∈ Download._ytdlp_fields) then data !! k else None.
Proof.
  intros Hk. unfold Download.progress_message.
  rewrite lookup_union_l by (by apply lookup_singleton_ne).
  rewrite map_lookup_filter. simpl.
  destruct (data !! k) as [v|] eqn:E; simpl.
  - case_bool_decide; [by rewrite option_guard_True|by rewrite option_guard_False].
  - by case_bool_decide.
Qed.

Lemma progress_message_size self_id data :
  size (Download.progress_message self_id data) =
  S (size (filter (λ kv : string * Download.pyval,
                     kv.1 ∈ Download._ytdlp_fields) data)).
Proof.
  unfold Download.progress_message.
  rewrite <- insert_union_singleton_r.
  - apply map_size_insert_None.
    apply map_lookup_filter_None. right. intros x _ Hin.
    revert Hin. simpl. vm_compute. intros Hin.
    repeat (apply elem_of_cons in Hin as [Hin|Hin]; [discriminate Hin|]).
    by apply elem_of_nil in Hin.
  - apply map_lookup_filter_None. right. intros x _ Hin.
    revert Hin. simpl. vm_compute. intros Hin.
    repeat (apply elem_of_cons in Hin as [Hin|Hin]; [discriminate Hin|]).
    by apply elem_of_nil in Hin.
Qed.

(** X12: a progress report is posted as one message that carries the id of
    the download and, of the entries of the report, exactly those named in
    [_ytdlp_fields]; [progress_update] takes the message as a reason to stop
    (line 233) if and only if the report had none of these entries. *)
Theorem progress_hook_message (data : gmap string Download.pyval)
  (d : Download.download) (q : list (gmap string Download.pyval)) :
  Download.status_queue d = Some q →
  ∃ m,
    Download._progress_hook data d
      = inr (Download.set_status_queue (Some (q ++ [m])) d) ∧
    m !! "id" = Some (Download.VStr (Download.id d)) ∧
    (∀ k, k ≠ "id" →
       m !! k = if bool_decide (k ∈ Download._ytdlp_fields)
                then data !! k else None) ∧
    (Download.update_stops (Download.id d) m = true ↔
     ∀ k, k ∈ Download._ytdlp_fields → data !! k = None).
Proof.
  intros Hq. exists (Download.progress_message (Download.id d) data).
  split; [|split; [|split]].
  - unfold Download._progress_hook, Download.put. by rewrite Hq.
  - apply progress_message_lookup_id.
  - intros k Hk. by apply progress_message_lookup.
  - unfold Download.update_stops.
    rewrite progress_message_lookup_id. simpl.
    rewrite bool_decide_false by (intros H; by apply H).
    simpl. rewrite bool_decide_eq_true, progress_message_size.
    split.
    + intros Hs k Hk.
      assert (size (filter (λ kv : string * Download.pyval,
                     kv.1 ∈ Download._ytdlp_fields) data) = 0%nat) as Hz
        by (clear -Hs; apply Nat.lt_1_r, PeanoNat.lt_S_n, Hs).
      apply map_size_empty_iff in Hz.
      destruct (data !! k) as [v|] eqn:E; [|done].
      assert (filter (λ kv : string * Download.pyval,
                     kv.1 ∈ Download._ytdlp_fields) data !! k = Some v) as Hf
        by (by apply map_lookup_filter_Some).
      rewrite Hz in Hf. by rewrite lookup_empty in Hf.
    + intros Hnone.
      assert (filter (λ kv : string * Download.pyval,
                     kv.1 ∈ Download._ytdlp_fields) data = ∅) as ->.
      { apply map_empty. intros k. apply map_lookup_filter_None.
        destruct (decide (k ∈ Download._ytdlp_fields)) as [Hk|Hk].
        - left. by apply Hnone.
        - right. intros x _ Hin. by apply Hk. }
      rewrite map_size_empty. apply Nat.lt_succ_diag_r.
Qed.

(** X13: the post-processor hook posts nothing unless the report is the one
    of [MoveFiles] with status [finished].  For that report it either fails
    before anything is posted ([KeyError] for a missing ['info_dict'] or
    ['filepath'], [TypeError] when a final directory is to be joined with
    something that is no string, [AttributeError] without a queue) or posts
    exactly one message: the id of the download, status [finished] and the
    file name, three entries, which [progress_update] accepts. *)
Theorem postprocessor_hook_message (path_join : string → string → string)
  (path_basename : string → string) (data : gmap string Download.pyval)
  (info_dict : option (gmap string Download.pyval)) (d : Download.download) :
  match Download._postprocessor_hook path_join path_basename data info_dict d with
  | inr d' =>
      (data !! "postprocessor" ≠ Some (Download.VStr "MoveFiles") ∨
       data !! "status" ≠ Some (Download.VStr "finished")) ∧ d' = d ∨
      data !! "postprocessor" = Some (Download.VStr "MoveFiles") ∧
      data !! "status" = Some (Download.VStr "finished") ∧
      ∃ q m info filepath,
        Download.status_queue d = Some q ∧
        d' = Download.set_status_queue (Some (q ++ [m])) d ∧
        info_dict = Some info ∧
        info !! "filepath" = Some filepath ∧
        m !! "id" = Some (Download.VStr (Download.id d)) ∧
        m !! "status" = Some (Download.VStr "finished") ∧
        (∃ filename, m !! "filename" = Some filename ∧
           (info !! "__finaldir" = None → filename = filepath)) ∧
        size m = 3%nat ∧
        Download.update_stops (Download.id d) m = false
  | inl e =>
      data !! "postprocessor" = Some (Download.VStr "MoveFiles") ∧
      data !! "status" = Some (Download.VStr "finished") ∧
      match e with
      | Download.KeyError key =>
          key = "info_dict" ∧ info_dict = None ∨
          key = "filepath" ∧ ∃ info, info_dict = Some info ∧
                                     info !! "filepath" = None
      | Download.TypeError =>
          ∃ info, info_dict = Some info ∧ is_Some (info !! "__finaldir")
      | Download.AttributeError => Download.status_queue d = None
      | Download.ValueError => False
      end
  end.
Proof.
  unfold Download._postprocessor_hook.
  destruct (bool_decide (data !! "postprocessor" ≠ Some (Download.VStr "MoveFiles")))
    eqn:E1; simpl;
    [left; split; [left; by apply bool_decide_eq_true in E1|done]|].
  destruct (bool_decide (data !! "status" ≠ Some (Download.VStr "finished")))
    eqn:E2; simpl;
    [left; split; [right; by apply bool_decide_eq_true in E2|done]|].
  apply bool_decide_eq_false in E1, E2.
  apply dec_stable in E1, E2.
  destruct info_dict as [info|]; [|by (split; [|split; [|left]])].
  destruct (info !! "filepath") as [filepath|] eqn:Ef;
    [|split; [done|split; [done|right; eauto]]].
  assert (∀ filename,
    match Download.put (<["filename" := filename]>
                       (<["status" := Download.VStr "finished"]>
                          {["id" := Download.VStr (Download.id d)]})) d with
    | inr d' =>
        ∃ q m, Download.status_queue d = Some q ∧
          d' = Download.set_status_queue (Some (q ++ [m])) d ∧
          m !! "id" = Some (Download.VStr (Download.id d)) ∧
          m !! "status" = Some (Download.VStr "finished") ∧
          m !! "filename" = Some filename ∧
          size m = 3%nat ∧
          Download.update_stops (Download.id d) m = false
    | inl e => e = Download.AttributeError ∧ Download.status_queue d = None
    end) as Hput.
  { intros filename. unfold Download.put.
    destruct (Download.status_queue d) as [q|]; [|done].
    eexists q, _. split; [done|]. split; [done|].
    assert (size (<["filename" := filename]>
                       (<["status" := Download.VStr "finished"]>
                          ({["id" := Download.VStr (Download.id d)]}
                            : gmap string Download.pyval))) = 3%nat) as Hs.
    { rewrite map_size_insert_None, map_size_insert_None, map_size_singleton;
        [done|by rewrite lookup_singleton_ne|].
      rewrite lookup_insert_ne by done. by rewrite lookup_singleton_ne. }
    split; [|split; [|split; [|split; [exact Hs|]]]].
    - rewrite !lookup_insert_ne by done. apply lookup_singleton_eq.
    - rewrite lookup_insert_ne by done. apply lookup_insert_eq.
    - apply lookup_insert_eq.
    - unfold Download.update_stops. rewrite Hs.
      rewrite !lookup_insert_ne by done. rewrite lookup_singleton_eq. simpl.
      by rewrite bool_decide_false by (intros H; by apply H). }
  destruct (info !! "__finaldir") as [finaldir|] eqn:Ed.
  - destruct (Download.as_str finaldir) as [e1|a] eqn:Ea.
    { destruct finaldir; simplify_eq/=; (split; [done|split; [done|eauto]]). }
    destruct (Download.as_str filepath) as [e2|b] eqn:Eb.
    { destruct filepath; simplify_eq/=; (split; [done|split; [done|eauto]]). }
    specialize (Hput (Download.VStr (path_join a (path_basename b)))).
    destruct Download.put as [e|d'].
    + destruct Hput as [-> Hq]. done.
    + right. split; [done|]. split; [done|].
      destruct Hput as (q & m & ? & ? & ? & ? & ? & ? & ?).
      exists q, m, info, filepath. split_and!; try done.
      eexists. split; [done|]. intros; congruence.
  - specialize (Hput filepath).
    destruct Download.put as [e|d'].
    + destruct Hput as [-> Hq]. done.
    + right. split; [done|]. split; [done|].
      destruct Hput as (q & m & ? & ? & ? & ? & ? & ? & ?).
      exists q, m, info, filepath. split_and!; try done.
      eexists. split; [done|]. done.
Qed.

(** ** Download: the temporary directory and the child process *)

Lemma prefix_length (s1 s2 : string) :
  String.prefix s1 s2 = true → (String.length s1 ≤ String.length s2)%nat.
Proof.
  revert s1. induction s2 as [|b s2 IH]; intros [|a s1]; simpl;
    try done; try (intros; apply Nat.le_0_l).
  destruct (Ascii.ascii_dec a b); [|done].
  intros H. apply le_n_S. by apply IH.
Qed.

Lemma length_append (s1 s2 : string) :
  String.length (s1 +:+ s2) = (String.length s1 + String.length s2)%nat.
Proof. induction s1 as [|a s1 IH]; simpl; [done|]. by rewrite IH. Qed.

Lemma append_empty_r (s : string) : s +:+ "" = s.
Proof.
  induction s as [|a s IH]; [done|].
  change (String a (s +:+ "") = String a s). by rewrite IH.
Qed.

Lemma download_apply_frame (o : Download.op) (d : Download.download) :
  Download.tempPath (Download.apply o d) = Download.tempPath d ∧
  Download.temp_dir (Download.apply o d) = Download.temp_dir d ∧
  Download.tempKeep (Download.apply o d) = Download.tempKeep d ∧
  Download.id (Download.apply o d) = Download.id d ∧
  Download.status_queue (Download.apply o d) = Download.status_queue d.
Proof.
  destruct o; simpl;
    unfold Download.cancel, Download.kill, Download.running, Download.close,
      Download.delete_temp, Download.is_alive, Download.process_close;
    repeat case_match; simplify_eq/=; done.
Qed.

Lemma delete_temp_removes (d : Download.download) (q : string) :
  q ∈ Download.fs d → q ∉ Download.fs (Download.delete_temp d) →
  ∃ p, Download.tempPath d = Some p ∧ Download.under p q = true ∧
       Download.path_exists p (Download.fs d) = true ∧
       p ≠ Download.temp_dir d ∧ p ≠ "" ∧ Download.tempKeep d = false ∧
       (Download.info_live d = true → Download.info_status d = Some "finished").
Proof.
  unfold Download.delete_temp. intros Hin Hout.
  destruct (Download.tempPath d) as [p|]; [|done].
  destruct (Download.tempKeep d) eqn:Ek; simpl in Hout; [done|].
  case_bool_decide as Hp; [done|].
  destruct (bool_decide (Download.info_status d ≠ Some "finished") &&
            Download.info_live d) eqn:El; [done|].
  destruct (Download.path_exists p (Download.fs d)) eqn:He; [|done].
  simpl in Hout.
  case_bool_decide as Ht; [done|].
  exists p. split; [done|]. simpl in Hout.
  split.
  { destruct (Download.under p q) eqn:Eu; [done|].
    exfalso. apply Hout. unfold Download.rmtree.
    apply elem_of_filter. done. }
  split; [done|].
  split; [done|]. split; [done|]. split; [done|].
  intros Hl. rewrite Hl, andb_true_r in El.
  apply bool_decide_eq_false in El. by apply dec_stable.
Qed.

Lemma delete_temp_proc (d : Download.download) :
  Download.proc (Download.delete_temp d) = Download.proc d ∧
  Download.canceled (Download.delete_temp d) = Download.canceled d ∧
  Download.kills (Download.delete_temp d) = Download.kills d.
Proof. unfold Download.delete_temp. repeat case_match; done. Qed.

Lemma download_apply_removes (o : Download.op) (d : Download.download) (q : string) :
  q ∈ Download.fs d → q ∉ Download.fs (Download.apply o d) →
  (o = Download.Close ∧ Download.proc d ≠ Some Download.Alive ∨
   o = Download.DeleteTemp) ∧
  ∃ p, Download.tempPath d = Some p ∧ Download.under p q = true ∧
       Download.path_exists p (Download.fs d) = true ∧
       p ≠ Download.temp_dir d ∧ p ≠ "" ∧ Download.tempKeep d = false ∧
       (Download.info_live d = true → Download.info_status d = Some "finished").
Proof.
  intros Hin Hout. destruct o; simpl in Hout.
  - exfalso. apply Hout. unfold Download.cancel, Download.kill.
    destruct (Download.running d) as [e|[]]; done.
  - exfalso. apply Hout. unfold Download.kill.
    destruct (Download.running d) as [e|[]]; done.
  - unfold Download.close in Hout.
    destruct (Download.proc d) as [pr|] eqn:Ep.
    + destruct pr; simpl in Hout; try done;
        (split; [by left|]; by apply (delete_temp_removes _ q) in Hout).
    + split; [by left|]. by apply delete_temp_removes.
  - split; [by right|]. by apply delete_temp_removes.
  - exfalso. apply Hout. by destruct (Download.proc d) as [[]|].
  - exfalso. apply Hout. simpl. apply elem_of_union. by right.
  - done.
Qed.

(** X14: whatever is called on a download and whatever else happens, a path
    that existed and is gone afterwards was the temporary directory of the
    download or lay below it; that directory was set, not the empty string,
    not the main temporary directory, [tempKeep] was off, and [close] or
    [delete_temp] was among the calls. *)
Theorem temp_removal_confined (os : list Download.op) (d : Download.download)
  (q : string) :
  q ∈ Download.fs d → q ∉ Download.fs (Download.apply_all os d) →
  ∃ p, Download.tempPath d = Some p ∧ Download.under p q = true ∧
       p ≠ Download.temp_dir d ∧ p ≠ "" ∧ Download.tempKeep d = false ∧
       (Download.Close ∈ os ∨ Download.DeleteTemp ∈ os).
Proof.
  revert d. induction os as [|o os IH]; intros d Hin Hout; [done|].
  change (Download.apply_all (o :: os) d)
    with (Download.apply_all os (Download.apply o d)) in Hout.
  destruct (download_apply_frame o d) as (Hp & Ht & Hk & _).
  destruct (decide (q ∈ Download.fs (Download.apply o d))) as [Hq|Hq].
  - destruct (IH _ Hq Hout) as (p & ? & ? & ? & ? & ? & Hos).
    exists p. rewrite <- Hp, <- Ht, <- Hk.
    split_and!; try done.
    destruct Hos; [left|right]; by apply elem_of_cons; right.
  - destruct (download_apply_removes o d q Hin Hq) as (Ho & p & ? & ? & ? & ? & ? & ? & ?).
    exists p. split_and!; try done.
    destruct Ho as [[-> _]| ->]; [left|right]; apply elem_of_cons; by left.
Qed.

Lemma hex_digit_not_slash (x : Ascii.ascii) :
  Download.hex_digit x = true → String.eqb (String x "") "/" = false.
Proof.
  intros Hx. destruct (String.eqb (String x "") "/") eqn:E; [|done].
  apply String.eqb_eq in E. injection E as ->. vm_compute in Hx.
  discriminate Hx.
Qed.

Lemma strip_slashes_hex (s : string) :
  Download.all_hex s = true → Download.strip_slashes s = s.
Proof.
  induction s as [|x s IH]; [done|].
  cbn [Download.all_hex Download.strip_slashes].
  intros [Hx Hs]%andb_true_iff. rewrite (IH Hs).
  destruct s; [|done]. by rewrite (hex_digit_not_slash x Hx).
Qed.

Lemma strip_slashes_append (a t : string) :
  Download.strip_slashes t = t → t ≠ "" →
  Download.strip_slashes (a +:+ t) = a +:+ t.
Proof.
  intros Ht Hne. induction a as [|x a IH]; [done|].
  change (String x a +:+ t) with (String x (a +:+ t)).
  cbn [Download.strip_slashes]. rewrite IH.
  destruct (a +:+ t) eqn:E; [|done].
  destruct a; [by subst|discriminate E].
Qed.

Lemma strip_slashes_length (s : string) :
  (String.length (Download.strip_slashes s) ≤ String.length s)%nat.
Proof.
  induction s as [|x s IH]; [done|].
  cbn [Download.strip_slashes String.length] in *.
  destruct (Download.strip_slashes s); cbn [String.length] in *; [|lia].
  destruct (String.eqb (String x "") "/"); cbn [String.length]; lia.
Qed.

(** What [start] makes of [tempPath] at line 168 is written one way and is
    longer than the main directory. *)
Lemma os_path_join_hex (a b : string) :
  Download.is_hexdigest b = true →
  Download.strip_slashes (Download.os_path_join a b)
    = Download.os_path_join a b ∧
  (String.length a < String.length (Download.os_path_join a b))%nat.
Proof.
  unfold Download.is_hexdigest. intros [Hne Hb]%andb_true_iff.
  apply negb_true_iff, String.eqb_neq in Hne.
  pose proof (strip_slashes_hex b Hb) as Hs.
  assert (0 < String.length b)%nat as Hl by (destruct b; simpl; [done|lia]).
  unfold Download.os_path_join.
  destruct (String.prefix "/" b) eqn:Ep.
  { exfalso. destruct b as [|x b]; [done|].
    cbn [Download.all_hex String.prefix] in Hb, Ep.
    apply andb_true_iff in Hb as [Hx _].
    destruct (Ascii.ascii_dec _ x) as [E|] in Ep; [|done].
    rewrite <- E in Hx. vm_compute in Hx. discriminate Hx. }
  destruct (String.eqb a "" || Download.ends_with_slash a).
  - split; [by apply strip_slashes_append|]. rewrite length_append. lia.
  - split.
    + apply strip_slashes_append; [by apply strip_slashes_append|].
      intros H. apply (f_equal String.length) in H.
      rewrite length_append in H. simpl in H. lia.
    + rewrite !length_append. lia.
Qed.

(** X15: when [tempPath] is what line 168 makes it, [os.path.join] of the
    main temporary directory and a hexadecimal digest, the main temporary
    directory, if it exists, still exists after any sequence of calls. *)
Theorem temp_dir_survives (os : list Download.op) (d : Download.download)
  (digest : string) :
  Download.is_hexdigest digest = true →
  Download.tempPath d
    = Some (Download.os_path_join (Download.temp_dir d) digest) →
  Download.path_exists (Download.temp_dir d) (Download.fs d) = true →
  Download.path_exists (Download.temp_dir d)
    (Download.fs (Download.apply_all os d)) = true.
Proof.
  intros Hhex. revert d. induction os as [|o os IH]; intros d Hp Hin; [done|].
  change (Download.apply_all (o :: os) d)
    with (Download.apply_all os (Download.apply o d)).
  destruct (download_apply_frame o d) as (Hp' & Ht' & _).
  rewrite <- Ht'. apply IH; [by rewrite Hp', Ht'|]. rewrite Ht'.
  unfold Download.path_exists in *.
  apply andb_true_iff in Hin as [Hne Hin]. rewrite Hne. simpl.
  apply orb_true_iff in Hin as [Hroot|Hin]; [by rewrite Hroot|].
  apply orb_true_iff. right. apply bool_decide_eq_true in Hin.
  apply bool_decide_eq_true.
  destruct (decide (Download.strip_slashes (Download.temp_dir d)
                      ∈ Download.fs (Download.apply o d))) as [|Hq]; [done|].
  exfalso.
  destruct (download_apply_removes o d _ Hin Hq)
    as (_ & p & Hp2 & Hu & _).
  rewrite Hp in Hp2. injection Hp2 as <-.
  destruct (os_path_join_hex (Download.temp_dir d) digest Hhex) as [Hs Hl].
  pose proof (strip_slashes_length (Download.temp_dir d)) as Hle.
  unfold Download.under in Hu. rewrite Hs in Hu.
  apply orb_true_iff in Hu as [Hu|Hu].
  - apply String.eqb_eq in Hu. rewrite Hu in Hle. lia.
  - apply prefix_length in Hu. rewrite length_append in Hu. lia.
Qed.


(** With a separator at its end [tempPath] passes the comparison of line 219
    and the main temporary directory goes. *)
Example trailing_separator_removes_temp_dir :
  Download.path_exists "/tmp" (Download.fs Download.sample_slash) = true ∧
  Download.path_exists "/tmp"
    (Download.fs (Download.delete_temp Download.sample_slash)) = false.
Proof. split; vm_compute; reflexivity. Qed.

(** X16: once [close] has gone through the process object stays closed:
    from then on [cancel], [kill] and [running] raise [ValueError], so a late
    [cancel] never sets the [canceled] flag and sends no signal, while
    [close] may be called again. *)
Theorem closed_download_is_inert (os : list Download.op)
  (d : Download.download) :
  Download.proc d = Some Download.Closed →
  Download.proc (Download.apply_all os d) = Some Download.Closed ∧
  Download.canceled (Download.apply_all os d) = Download.canceled d ∧
  Download.kills (Download.apply_all os d) = Download.kills d ∧
  Download.cancel (Download.apply_all os d) = inl Download.ValueError ∧
  Download.kill (Download.apply_all os d) = inl Download.ValueError ∧
  Download.running (Download.apply_all os d) = inl Download.ValueError ∧
  Download.close (Download.apply_all os d)
    = inr (Download.delete_temp (Download.apply_all os d)).
Proof.
  intros Hc.
  assert (Download.proc (Download.apply_all os d) = Some Download.Closed ∧
          Download.canceled (Download.apply_all os d) = Download.canceled d ∧
          Download.kills (Download.apply_all os d) = Download.kills d)
    as (Hp & Hcan & Hk).
  { revert d Hc. induction os as [|o os IH]; intros d Hc; [done|].
    change (Download.apply_all (o :: os) d)
      with (Download.apply_all os (Download.apply o d)).
    assert (Download.proc (Download.apply o d) = Some Download.Closed ∧
            Download.canceled (Download.apply o d) = Download.canceled d ∧
            Download.kills (Download.apply o d) = Download.kills d)
      as (Hp1 & <- & <-).
    { destruct o; simpl;
        unfold Download.cancel, Download.kill, Download.running,
          Download.close; rewrite ?Hc; simpl; try done.
      - destruct (delete_temp_proc
                    (Download.set_proc (Some Download.Closed) d))
          as (-> & -> & ->). done.
      - destruct (delete_temp_proc d) as (-> & -> & ->). done. }
    by apply IH. }
  split_and!; try done;
    unfold Download.cancel, Download.kill, Download.running, Download.close;
    rewrite Hp; simpl; try done.
  f_equal. f_equal. destruct (Download.apply_all os d). simpl in Hp.
  by rewrite Hp.
Qed.

(** X17: as long as the child process has not ended, [close] raises
    [ValueError] before it gets to the temporary directory, also right after
    [cancel] or [kill], which only send the signal, one per call; nothing is
    removed unless [delete_temp] is called directly, and once the child has
    ended [close] goes through. *)
Theorem close_waits_for_child (os : list Download.op) (d : Download.download) :
  Download.proc d = Some Download.Alive →
  Download.ChildExits ∉ os →
  Download.proc (Download.apply_all os d) = Some Download.Alive ∧
  Download.close (Download.apply_all os d) = inl Download.ValueError ∧
  Download.kills (Download.apply_all os d)
    = (Download.kills d + sum_list_with Download.kill_w os)%nat ∧
  (Download.DeleteTemp ∉ os →
   Download.fs d ⊆ Download.fs (Download.apply_all os d)) ∧
  ∃ d', Download.close (Download.apply Download.ChildExits
                          (Download.apply_all os d)) = inr d' ∧
        Download.proc d' = Some Download.Closed.
Proof.
  intros Ha Hos.
  assert (Download.proc (Download.apply_all os d) = Some Download.Alive ∧
          Download.kills (Download.apply_all os d)
            = (Download.kills d + sum_list_with Download.kill_w os)%nat ∧
          (Download.DeleteTemp ∉ os →
           Download.fs d ⊆ Download.fs (Download.apply_all os d)))
    as (Hp & Hk & Hfs).
  { revert d Ha. induction os as [|o os IH]; intros d Ha.
    { simpl. split; [done|]. split; [simpl; lia|done]. }
    change (Download.apply_all (o :: os) d)
      with (Download.apply_all os (Download.apply o d)).
    apply not_elem_of_cons in Hos as [Ho Hos].
    assert (Download.proc (Download.apply o d) = Some Download.Alive ∧
            Download.kills (Download.apply o d)
              = (Download.kills d + Download.kill_w o)%nat ∧
            (o ≠ Download.DeleteTemp →
             Download.fs d ⊆ Download.fs (Download.apply o d)))
      as (Hp1 & Hk1 & Hf1).
    { destruct o; simpl;
        unfold Download.cancel, Download.kill, Download.running,
          Download.close; rewrite ?Ha; simpl;
        try (destruct (delete_temp_proc d) as (-> & _ & ->));
        (split; [done|]; split; [simpl; lia|]); try done.
      intros _ q Hq. apply elem_of_union. by right. }
    destruct (IH Hos _ Hp1) as (Hp2 & Hk2 & Hf2).
    split; [done|]. split.
    - rewrite Hk2, Hk1. simpl. lia.
    - intros [Hne Hd]%not_elem_of_cons. etrans; [apply Hf1; congruence|].
      by apply Hf2. }
  split; [done|]. split.
  { unfold Download.close. by rewrite Hp. }
  split; [done|]. split; [done|].
  simpl. rewrite Hp. unfold Download.close. simpl.
  eexists. split; [done|].
  by destruct (delete_temp_proc (Download.set_proc (Some Download.Closed)
    (Download.set_proc (Some Download.Exited) (Download.apply_all os d))))
    as (-> & _).
Qed.

Lemma download_apply_canceled (o : Download.op) (d : Download.download) :
  Download.canceled (Download.apply o d) = true ↔
  Download.canceled d = true ∨
  o = Download.Cancel ∧ Download.proc d ≠ Some Download.Closed.
Proof.
  destruct o; simpl;
    unfold Download.cancel, Download.kill, Download.running, Download.close;
    try (destruct (Download.proc d) as [[]|]; simpl);
    repeat match goal with
           | |- context [Download.delete_temp ?x] =>
               destruct (delete_temp_proc x) as (_ & -> & _)
           end;
    simpl; intuition congruence.
Qed.

(** X18: [is_canceled] answers [True] exactly when the flag was set to begin
    with or [cancel] was called at a moment the process object was not
    closed; nothing resets the flag. *)
Theorem canceled_flag (os : list Download.op) (d : Download.download) :
  Download.is_canceled (Download.apply_all os d) = true ↔
  Download.canceled d = true ∨
  ∃ os1 os2, os = os1 ++ Download.Cancel :: os2 ∧
             Download.proc (Download.apply_all os1 d) ≠ Some Download.Closed.
Proof.
  unfold Download.is_canceled.
  revert d. induction os as [|o os IH]; intros d.
  { simpl. split; [by left|]. intros [H|(os1 & os2 & H & _)]; [done|].
    by destruct os1. }
  change (Download.apply_all (o :: os) d)
    with (Download.apply_all os (Download.apply o d)).
  rewrite IH, download_apply_canceled. split.
  - intros [[H|[-> H]]|(os1 & os2 & -> & H)].
    + by left.
    + right. by exists [], os.
    + right. by exists (o :: os1), os2.
  - intros [H|(os1 & os2 & H & Hp)]; [by left; left|].
    destruct os1 as [|o' os1]; simplify_eq/=.
    + left. by right.
    + right. by exists os1, os2.
Qed.

(** X19: the temporary directory of a live stream whose status is not
    [finished] is kept: as long as [self.info] says so, no call removes any
    path. *)
Theorem live_temp_kept (os : list Download.op) (d : Download.download) :
  Download.info_live d = true →
  Download.info_status d ≠ Some "finished" →
  (∀ status live, Download.InfoChanges status live ∉ os) →
  Download.fs d ⊆ Download.fs (Download.apply_all os d).
Proof.
  revert d. induction os as [|o os IH]; intros d Hl Hs Hos; [done|].
  change (Download.apply_all (o :: os) d)
    with (Download.apply_all os (Download.apply o d)).
  assert (Download.info_live (Download.apply o d) = Download.info_live d ∧
          Download.info_status (Download.apply o d) = Download.info_status d)
    as [Hl1 Hs1].
  { destruct o; simpl;
      unfold Download.cancel, Download.kill, Download.running, Download.close,
        Download.delete_temp, Download.is_alive, Download.process_close;
      repeat case_match; simplify_eq/=; try done.
    exfalso. eapply Hos. apply elem_of_cons. by left. }
  etrans; [|apply IH].
  - intros q Hq.
    destruct (decide (q ∈ Download.fs (Download.apply o d))) as [|Hout];
      [done|].
    destruct (download_apply_removes o d q Hq Hout)
      as (_ & p & _ & _ & _ & _ & _ & _ & Hfin).
    by destruct Hs; apply Hfin.
  - by rewrite Hl1.
  - by rewrite Hs1.
  - intros status live Hin. eapply Hos. apply elem_of_cons. by right.
Qed.

(** ** The properties above at a concrete download *)

Lemma progress_hook_message_witness :
  Download.status_queue Download.sample = Some [] ∧
  ∃ m,
    Download._progress_hook
      {[ "status" := Download.VStr "downloading";
         "elapsed" := Download.VFloat "1.5" ]} Download.sample
      = inr (Download.set_status_queue (Some ([] ++ [m])) Download.sample) ∧
    m !! "id" = Some (Download.VStr (Download.id Download.sample)) ∧
    (∀ k, k ≠ "id" →
       m !! k = if bool_decide (k ∈ Download._ytdlp_fields)
                then ({[ "status" := Download.VStr "downloading";
                         "elapsed" := Download.VFloat "1.5" ]}
                      : gmap string Download.pyval) !! k
                else None) ∧
    (Download.update_stops (Download.id Download.sample) m = true ↔
     ∀ k, k ∈ Download._ytdlp_fields →
          ({[ "status" := Download.VStr "downloading";
              "elapsed" := Download.VFloat "1.5" ]}
           : gmap string Download.pyval) !! k = None).
Proof.
  split; [reflexivity|].
  apply (progress_hook_message
           {[ "status" := Download.VStr "downloading";
              "elapsed" := Download.VFloat "1.5" ]} Download.sample []).
  reflexivity.
Defined.

Lemma temp_removal_confined_witness :
  "/tmp/0f3a9c21d4/video.part" ∈ Download.fs Download.sample ∧
  ("/tmp/0f3a9c21d4/video.part" ∉ Download.fs Download.sample_closed) ∧
  ∃ p, Download.tempPath Download.sample = Some p ∧
       Download.under p "/tmp/0f3a9c21d4/video.part" = true ∧
       p ≠ Download.temp_dir Download.sample ∧ p ≠ "" ∧
       Download.tempKeep Download.sample = false ∧
       (Download.Close ∈ [Download.ChildExits; Download.Close] ∨
        Download.DeleteTemp ∈ [Download.ChildExits; Download.Close]).
Proof.
  assert ("/tmp/0f3a9c21d4/video.part" ∈ Download.fs Download.sample) as Hin
    by (apply (bool_decide_unpack _); vm_compute; exact I).
  assert ("/tmp/0f3a9c21d4/video.part" ∉ Download.fs Download.sample_closed)
    as Hout by (apply (bool_decide_unpack _); vm_compute; exact I).
  split; [exact Hin|]. split; [exact Hout|].
  exact (temp_removal_confined [Download.ChildExits; Download.Close]
           Download.sample "/tmp/0f3a9c21d4/video.part" Hin Hout).
Defined.

Lemma temp_dir_survives_witness :
  Download.is_hexdigest "0f3a9c21d4" = true ∧
  Download.tempPath Download.sample
    = Some (Download.os_path_join (Download.temp_dir Download.sample)
              "0f3a9c21d4") ∧
  Download.path_exists (Download.temp_dir Download.sample)
    (Download.fs Download.sample) = true ∧
  Download.path_exists (Download.temp_dir Download.sample)
    (Download.fs Download.sample_closed) = true.
Proof.
  split; [vm_compute; reflexivity|]. split; [vm_compute; reflexivity|].
  split; [vm_compute; reflexivity|].
  apply (temp_dir_survives [Download.ChildExits; Download.Close]
           Download.sample "0f3a9c21d4");
    vm_compute; reflexivity.
Defined.

Lemma closed_download_is_inert_witness :
  Download.proc Download.sample_closed = Some Download.Closed ∧
  Download.proc (Download.apply_all [Download.Cancel; Download.Kill]
                   Download.sample_closed) = Some Download.Closed ∧
  Download.canceled (Download.apply_all [Download.Cancel; Download.Kill]
                       Download.sample_closed)
    = Download.canceled Download.sample_closed ∧
  Download.kills (Download.apply_all [Download.Cancel; Download.Kill]
                    Download.sample_closed)
    = Download.kills Download.sample_closed ∧
  Download.cancel (Download.apply_all [Download.Cancel; Download.Kill]
                     Download.sample_closed) = inl Download.ValueError ∧
  Download.kill (Download.apply_all [Download.Cancel; Download.Kill]
                   Download.sample_closed) = inl Download.ValueError ∧
  Download.running (Download.apply_all [Download.Cancel; Download.Kill]
                      Download.sample_closed) = inl Download.ValueError ∧
  Download.close (Download.apply_all [Download.Cancel; Download.Kill]
                    Download.sample_closed)
    = inr (Download.delete_temp
             (Download.apply_all [Download.Cancel; Download.Kill]
                Download.sample_closed)).
Proof.
  assert (Download.proc Download.sample_closed = Some Download.Closed) as Hc
    by (vm_compute; reflexivity).
  split; [exact Hc|].
  exact (closed_download_is_inert [Download.Cancel; Download.Kill]
           Download.sample_closed Hc).
Defined.

Lemma close_waits_for_child_witness :
  Download.proc Download.sample = Some Download.Alive ∧
  (Download.ChildExits ∉ [Download.Cancel; Download.Close]) ∧
  Download.proc (Download.apply_all [Download.Cancel; Download.Close]
                   Download.sample) = Some Download.Alive ∧
  Download.close (Download.apply_all [Download.Cancel; Download.Close]
                    Download.sample) = inl Download.ValueError ∧
  Download.kills (Download.apply_all [Download.Cancel; Download.Close]
                    Download.sample)
    = (Download.kills Download.sample
       + sum_list_with Download.kill_w [Download.Cancel; Download.Close])%nat ∧
  (Download.DeleteTemp ∉ [Download.Cancel; Download.Close] →
   Download.fs Download.sample
     ⊆ Download.fs (Download.apply_all [Download.Cancel; Download.Close]
                      Download.sample)) ∧
  ∃ d', Download.close
          (Download.apply Download.ChildExits
             (Download.apply_all [Download.Cancel; Download.Close]
                Download.sample)) = inr d' ∧
        Download.proc d' = Some Download.Closed.
Proof.
  assert (Download.ChildExits ∉ [Download.Cancel; Download.Close]) as Hos.
  { intros H. apply elem_of_cons in H as [H|H]; [discriminate H|].
    apply elem_of_cons in H as [H|H]; [discriminate H|].
    exact (proj1 (elem_of_nil _) H). }
  split; [reflexivity|]. split; [exact Hos|].
  exact (close_waits_for_child [Download.Cancel; Download.Close]
           Download.sample eq_refl Hos).
Defined.

Lemma live_temp_kept_witness :
  Download.info_live Download.sample_live = true ∧
  Download.info_status Download.sample_live ≠ Some "finished" ∧
  (∀ status live,
     Download.InfoChanges status live
       ∉ [Download.ChildExits; Download.Close]) ∧
  Download.fs Download.sample_live
    ⊆ Download.fs (Download.apply_all [Download.ChildExits; Download.Close]
                     Download.sample_live).
Proof.
  assert (Download.info_status Download.sample_live ≠ Some "finished") as Hs
    by discriminate.
  assert (∀ status live,
            Download.InfoChanges status live
              ∉ [Download.ChildExits; Download.Close]) as Hos.
  { intros status live H. apply elem_of_cons in H as [H|H]; [discriminate H|].
    apply elem_of_cons in H as [H|H]; [discriminate H|].
    exact (proj1 (elem_of_nil _) H). }
  split; [reflexivity|]. split; [exact Hs|]. split; [exact Hos|].
  exact (live_temp_kept [Download.ChildExits; Download.Close]
           Download.sample_live eq_refl Hs Hos).
Defined.
